(** * BizarrioFish: the multi-strategy move selector of [homemade.py]

    A shallow embedding of the classes [TestFish] and [WorstFish] of
    [src/homemade.py], and the properties of their [search] and
    [evaluate] methods; then of the example engines of the same file and
    of the chat commands of [src/lib/conversation.py].

    Conventions of the embedding.
    - [search] hands its time values on without looking at them again (to
      [evaluate], and from there to the engine), so the run of [search]
      carries them as exact rationals [Q].  What the arithmetic of lines
      205-209 yields in the floats of Python (IEEE 754 binary64, every
      operation rounded) is given in [Binary64], on the [spec_float] of the
      Standard Library, and the statements about the size of a time slice
      are made there.
    - The [chess] package, the two engine bindings and the [random]
      module are not part of the repository: their operations are the
      fields of [ChessLib] and [Oracle], and the theorems hold for every
      instance.  [Mini] is a small instance used to run the code on
      concrete positions.
    - A call of [search] runs in a [World]: the mutable board it was
      handed, the requests already sent to the engines, the number of
      random draws made so far.  A raised exception leaves the world as
      it was when it was raised. *)

From Stdlib Require Import List Bool Arith Lia Ascii String ZArith QArith Qpower Lqa.
From Stdlib Require Import Permutation Sorted.
From Stdlib Require Import SpecFloat.
Import ListNotations.
Local Open Scope Q_scope.

(** ** Python values *)

(** The exceptions of the built-in kind that the code can raise, followed by
    the three error kinds that the design document names.  No statement of
    [homemade.py] defines or raises one of the last three. *)
Inductive exn : Type :=
  | IndexError
  | ZeroDivisionError
  | OverflowError
  | TypeError
  | EngineError (msg : string)
  | NoLegalMoves
  | EvaluationUnavailable
  | TimeBudgetExhausted.

Inductive outcome (A : Type) : Type :=
  | Returned (a : A)
  | Raised (e : exn).
Arguments Returned {A} a.
Arguments Raised {A} e.

(** [chess.engine.Limit]: every field is optional. *)
Record Limit : Type := mkLimit {
  time : option Q;
  white_clock : option Q;
  black_clock : option Q;
  white_inc : option Q;
  black_inc : option Q
}.

(** [chess.engine.Limit(time = t)] *)
Definition Limit_time (t : Q) : Limit := mkLimit (Some t) None None None None.

(** [chess.engine.PlayResult(move, ponder)] *)
Record PlayResult (A : Type) : Type := mkPlayResult {
  move : A;
  ponder : option A
}.
Arguments mkPlayResult {A} move ponder.
Arguments move {A} p.
Arguments ponder {A} p.

(** The second argument of [search]: either a [chess.engine.Limit] or a
    number of milliseconds, told apart by
    [type(timeLeft) != chess.engine.Limit]. *)
Inductive TimeLeft : Type :=
  | LimitObj (l : Limit)
  | Clock (ms : Q).

(** [x > y] on numbers, as a boolean. *)
Definition Qgtb (x y : Q) : bool := negb (Qle_bool x y).

(** [x / y] on numbers: division by zero raises. *)
Definition py_div (x y : Q) : outcome Q :=
  if Qeq_bool y 0 then Raised ZeroDivisionError else Returned (x / y).

(** [len(seq)] as a number. *)
Definition len {A : Type} (seq : list A) : Q := inject_Z (Z.of_nat (List.length seq)).

(** ** The libraries the code calls *)

(** The part of [python-chess] that [search] uses.  [pop] undoes the last
    [push]; [score_lt] and [score_eq] are [Score.__lt__] and
    [Score.__eq__]. *)
Class ChessLib : Type := {
  Board : Type;
  Move : Type;
  Score : Type;
  legal_moves : Board -> list Move;
  is_capture : Board -> Move -> bool;
  is_check : Board -> bool;
  push : Board -> Move -> Board;
  pop : Board -> Board;
  fen : Board -> string;
  score_lt : Score -> Score -> bool;
  score_eq : Score -> Score -> bool
}.

(** What the outside answers during one run.  [randbelow k n] is the value
    of [random._randbelow(n)] at the [k]-th draw; [analyse k b l] is the
    relative score of the [k]-th [SimpleEngine.analyse(b, l)], or the
    exception it raises; [get_best_move k f] is the answer of the [k]-th
    [Stockfish.get_best_move()] with position [f] loaded, [None] when the
    engine reports no move. *)
Record Oracle `{ChessLib} : Type := mkOracle {
  randbelow : nat -> nat -> nat;
  analyse : nat -> Board -> Limit -> outcome Score;
  get_best_move : nat -> string -> option string
}.
Arguments mkOracle {_} randbelow analyse get_best_move.

(** A [chess.Move] after the scoring loop has set its two attributes.  The
    loop sets both attributes of a move object before it stores the object
    in [worstMoves], and visits each object of [legalMoves] once, so the
    object with its attributes is a record. *)
Record TaggedMove `{ChessLib} : Type := mkTagged {
  the_move : Move;
  isCapture : bool;
  isCheck : bool
}.
Arguments mkTagged {_} the_move isCapture isCheck.

(** What [TestFish.search] hands to [PlayResult]: the string that the engine
    binding returned, a move object of the board, or one that carries the
    attributes of the scoring loop. *)
Inductive Played `{ChessLib} : Type :=
  | UciString (s : string)
  | MoveObject (m : Move)
  | TaggedObject (t : TaggedMove).

(** ** The world of one call *)

Record World `{ChessLib} : Type := mkWorld {
  board : Board;                     (* the [chess.Board] argument *)
  draws : nat;                       (* draws made from [random] *)
  evaluate_calls : list Q;           (* [timeLimit] of each call of [evaluate] *)
  analysed : list (Board * Limit);   (* requests sent to [self.stockfish] *)
  sf_position : option string;       (* position loaded in the global [stockfish] *)
  sf_asked : nat;                    (* [get_best_move] queries answered *)
  move_type_txt : option string      (* content of the file move_type.txt *)
}.
Arguments mkWorld {_} board draws evaluate_calls analysed sf_position sf_asked move_type_txt.

Section Selector.
Context `{L : ChessLib} (O : Oracle).

(** *** A state monad in which an exception keeps the state *)

Definition M (A : Type) : Type := World -> outcome A * World.

Definition ret {A : Type} (a : A) : M A := fun w => (Returned a, w).

Definition raise {A : Type} (e : exn) : M A := fun w => (Raised e, w).

Definition bind {A B : Type} (c : M A) (k : A -> M B) : M B :=
  fun w => match c w with
           | (Returned a, w') => k a w'
           | (Raised e, w') => (Raised e, w')
           end.

Definition lift {A : Type} (o : outcome A) : M A := fun w => (o, w).

Notation "x <- c ;; k" := (bind c (fun x => k))
  (at level 61, c at next level, right associativity).
Notation "c ;; k" := (bind c (fun _ => k))
  (at level 61, right associativity).

(** [for x in xs: s = body x s] *)
Fixpoint for_each {A S : Type} (body : A -> S -> M S) (xs : list A) (s : S) : M S :=
  match xs with
  | [] => ret s
  | x :: xs' => s' <- body x s ;; for_each body xs' s'
  end.

(** *** Primitive effects *)

Definition get_board : M Board := fun w => (Returned (board w), w).

Definition set_board (b : Board) : M unit := fun w =>
  (Returned tt,
   mkWorld b (draws w) (evaluate_calls w) (analysed w) (sf_position w) (sf_asked w)
           (move_type_txt w)).

(** [board.push(move)] *)
Definition board_push (m : Move) : M unit :=
  b <- get_board ;; set_board (push b m).

(** [board.pop()] *)
Definition board_pop : M unit :=
  b <- get_board ;; set_board (pop b).

(** [random.choice(seq)]: [seq[_randbelow(len(seq))]], [IndexError] when the
    sequence is empty or the index is outside of it. *)
Definition random_choice {A : Type} (seq : list A) : M A := fun w =>
  match seq with
  | [] => (Raised IndexError, w)
  | _ :: _ =>
      let w' := mkWorld (board w) (S (draws w)) (evaluate_calls w) (analysed w)
                        (sf_position w) (sf_asked w) (move_type_txt w) in
      match nth_error seq (randbelow O (draws w) (List.length seq)) with
      | Some x => (Returned x, w')
      | None => (Raised IndexError, w')
      end
  end.

(** [create_file(file_name, text)], for the one file the code writes. *)
Definition create_file (text : string) : M unit := fun w =>
  (Returned tt,
   mkWorld (board w) (draws w) (evaluate_calls w) (analysed w) (sf_position w)
           (sf_asked w) (Some text)).

(** [stockfish.set_fen_position(f)] *)
Definition set_fen_position (f : string) : M unit := fun w =>
  (Returned tt,
   mkWorld (board w) (draws w) (evaluate_calls w) (analysed w) (Some f) (sf_asked w)
           (move_type_txt w)).

(** [stockfish.get_best_move()] *)
Definition stockfish_get_best_move : M (option string) := fun w =>
  let f := match sf_position w with Some f => f | None => EmptyString end in
  (Returned (get_best_move O (sf_asked w) f),
   mkWorld (board w) (draws w) (evaluate_calls w) (analysed w) (sf_position w)
           (S (sf_asked w)) (move_type_txt w)).

(** [self.stockfish.analyse(board, limit)["score"].relative] *)
Definition stockfish_analyse (l : Limit) : M Score := fun w =>
  (analyse O (List.length (analysed w)) (board w) l,
   mkWorld (board w) (draws w) (evaluate_calls w) (analysed w ++ [(board w, l)])
           (sf_position w) (sf_asked w) (move_type_txt w)).

(** The entry of [evaluate]: its argument goes to the log of the world. *)
Definition note_evaluate (timeLimit : Q) : M unit := fun w =>
  (Returned tt,
   mkWorld (board w) (draws w) (evaluate_calls w ++ [timeLimit]) (analysed w)
           (sf_position w) (sf_asked w) (move_type_txt w)).

(** *** [WorstFish.evaluate] and [TestFish.evaluate] (the same text) *)

Definition evaluate (timeLimit : Q) : M Score :=
  note_evaluate timeLimit ;;
  stockfish_analyse (Limit_time (timeLimit - 0.01)).

(** *** [WorstFish.search] *)

(** Lines 205-209: the time handed to each evaluation, computed without
    rounding.  [Binary64.searchTime] below is the same text in floats. *)
Definition searchTime_of (timeLeft : TimeLeft) (legalMoves : list Move) : outcome Q :=
  let searchTime := 0.1 in
  match timeLeft with
  | LimitObj _ => Returned searchTime
  | Clock ms =>
      let timeLeft := ms / 1000 in
      if Qgtb (len legalMoves * searchTime) (timeLeft / 10)
      then py_div (timeLeft / 10) (len legalMoves)
      else Returned searchTime
  end.

(** Lines 217-221: the update of [worstEvaluation] and [worstMoves]. *)
Definition track (st : option Score * list TaggedMove) (t : TaggedMove)
    (evaluation : Score) : option Score * list TaggedMove :=
  let (worstEvaluation, worstMoves) := st in
  match worstEvaluation with
  | None => (Some evaluation, [t])
  | Some worst =>
      if score_lt worst evaluation then (Some evaluation, [t])
      else if score_eq worst evaluation then (Some worst, worstMoves ++ [t])
      else (Some worst, worstMoves)
  end.

(** Lines 213-222: the body of the scoring loop. *)
Definition score_candidate (searchTime : Q) (m : Move)
    (st : option Score * list TaggedMove) : M (option Score * list TaggedMove) :=
  b <- get_board ;;
  let capture := is_capture b m in
  board_push m ;;
  b' <- get_board ;;
  let check := is_check b' in
  evaluation <- evaluate searchTime ;;
  let st' := track st (mkTagged m capture check) evaluation in
  board_pop ;;
  ret st'.

(** Lines 223-232: the three lists, as [(worstCaptures, worstChecks, worstOther)]. *)
Definition classify (buckets : list TaggedMove * list TaggedMove * list TaggedMove)
    (t : TaggedMove) : list TaggedMove * list TaggedMove * list TaggedMove :=
  let '(worstCaptures, worstChecks, worstOther) := buckets in
  if isCapture t then (worstCaptures ++ [t], worstChecks, worstOther)
  else if isCheck t then (worstCaptures, worstChecks ++ [t], worstOther)
  else (worstCaptures, worstChecks, worstOther ++ [t]).

Definition partition_worst (worstMoves : list TaggedMove)
    : list TaggedMove * list TaggedMove * list TaggedMove :=
  fold_left classify worstMoves ([], [], []).

(** The first list that is not empty among [worstOther], [worstChecks] and
    [worstCaptures], in this order (the last one when all are empty). *)
Definition chosen_bucket (buckets : list TaggedMove * list TaggedMove * list TaggedMove)
    : list TaggedMove :=
  let '(worstCaptures, worstChecks, worstOther) := buckets in
  if negb (List.length worstOther =? 0)%nat then worstOther
  else if negb (List.length worstChecks =? 0)%nat then worstChecks
  else worstCaptures.

(** [args] stands for the arguments that the signature collects in [*args]
    (among them the root moves of the caller); the body never reads them. *)
Definition WorstFish_search (timeLeft : TimeLeft) (args : option (list Move))
    : M (PlayResult TaggedMove) :=
  b <- get_board ;;
  let legalMoves := legal_moves b in
  searchTime <- lift (searchTime_of timeLeft legalMoves) ;;
  st <- for_each (score_candidate searchTime) legalMoves (None, []) ;;
  let worstMoves := snd st in
  let '(worstCaptures, worstChecks, worstOther) := partition_worst worstMoves in
  if negb (List.length worstOther =? 0)%nat then
    m <- random_choice worstOther ;; ret (mkPlayResult m None)
  else if negb (List.length worstChecks =? 0)%nat then
    m <- random_choice worstChecks ;; ret (mkPlayResult m None)
  else
    m <- random_choice worstCaptures ;; ret (mkPlayResult m None).

(** *** [TestFish.search] *)

Inductive MoveType : Type := Best | Random | Worst | Capture.

Definition move_type_name (t : MoveType) : string :=
  match t with
  | Best => "Best"
  | Random => "Random"
  | Worst => "Worst"
  | Capture => "Capture"
  end.

(** The branches of lines 129-191.  The branch of [Worst] repeats the text of
    [WorstFish.search], with [TestFish.evaluate] for [WorstFish.evaluate]. *)
Definition TestFish_branch (move_type : MoveType) (timeLeft : TimeLeft)
    (args : option (list Move)) : M (PlayResult Played) :=
  match move_type with
  | Best =>
      b <- get_board ;;
      set_fen_position (fen b) ;;
      bmove <- stockfish_get_best_move ;;
      match bmove with
      | None => raise TypeError
      | Some s => ret (mkPlayResult (UciString s) None)
      end
  | Random =>
      b <- get_board ;;
      m <- random_choice (legal_moves b) ;;
      ret (mkPlayResult (MoveObject m) None)
  | Capture =>
      b <- get_board ;;
      let legalMoves := legal_moves b in
      let captures := filter (is_capture b) legalMoves in
      match captures with
      | _ :: _ =>
          m <- random_choice captures ;;
          ret (mkPlayResult (MoveObject m) None)
      | [] =>
          set_fen_position (fen b) ;;
          bmove <- stockfish_get_best_move ;;
          match bmove with
          | None => raise TypeError
          | Some s => ret (mkPlayResult (UciString s) None)
          end
      end
  | Worst =>
      r <- WorstFish_search timeLeft args ;;
      ret (mkPlayResult (TaggedObject (move r)) None)
  end.

Definition TestFish_search (timeLeft : TimeLeft) (args : option (list Move))
    : M (PlayResult Played) :=
  move_type <- random_choice [Best; Best; Best; Random; Worst; Capture] ;;
  create_file (move_type_name move_type) ;;
  TestFish_branch move_type timeLeft args.

End Selector.

Arguments M {L} A.

(** ** Lines 205-209 in binary floating point

    The numbers of Python are [int]s of any size and [float]s, the binary64
    numbers of IEEE 754.  [spec_float] and [SFdiv], [SFmul], [SFadd],
    [SFcompare] of the Standard Library, at precision 53 and exponent 1024,
    are that format and its operations, each rounded to the nearest number,
    ties to even. *)
Module Binary64.

Definition prec : Z := 53.
Definition emax : Z := 1024.

(** A Python number. *)
Inductive Number : Type :=
  | Int (z : Z)
  | Float (f : spec_float).

(** The integer [z] with all its digits, before any rounding. *)
Definition exact (z : Z) : spec_float :=
  match z with
  | Z0 => S754_zero false
  | Zpos p => S754_finite false p 0
  | Zneg p => S754_finite true p 0
  end.

(** The decimal literal for [num/den], as [0.1] for [1/10]: the nearest
    number of the format. *)
Definition literal (num den : Z) : spec_float := SFdiv prec emax (exact num) (exact den).

(** [float(z)], as Python converts the [int] operand of a [float]:
    [OverflowError] when the nearest number of the format is infinite. *)
Definition to_float (z : Z) : outcome spec_float :=
  match binary_normalize prec emax z 0 false with
  | S754_infinity _ => Raised OverflowError
  | f => Returned f
  end.

(** [x / d] for an [int] [d].  Between two [int]s it is the quotient, rounded
    once, and [OverflowError] when that is infinite; a [float] is divided by
    [float(d)]. *)
Definition truediv (x : Number) (d : Z) : outcome spec_float :=
  match x with
  | Int z =>
      if (d =? 0)%Z then Raised ZeroDivisionError
      else match SFdiv prec emax (exact z) (exact d) with
           | S754_infinity _ => Raised OverflowError
           | q => Returned q
           end
  | Float f =>
      match to_float d with
      | Raised e => Raised e
      | Returned fd =>
          if (d =? 0)%Z then Raised ZeroDivisionError
          else Returned (SFdiv prec emax f fd)
      end
  end.

(** [n * f] for an [int] [n] *)
Definition mul_int (n : Z) (f : spec_float) : outcome spec_float :=
  match to_float n with
  | Raised e => Raised e
  | Returned fn => Returned (SFmul prec emax fn f)
  end.

(** [x > y] and [x <= y]: both false when one side is not a number. *)
Definition gt (x y : spec_float) : bool :=
  match SFcompare x y with
  | Some Gt => true
  | _ => false
  end.

Definition le (x y : spec_float) : bool := SFleb x y.

(** The rational that a finite number of the format stands for. *)
Definition value (f : spec_float) : option Q :=
  match f with
  | S754_zero _ => Some 0
  | S754_finite s m e => Some (inject_Z (if s then Zneg m else Zpos m) * 2 ^ e)
  | _ => None
  end.

(** The unit in the last place of a finite number that is not zero: the
    distance to the next number of the format. *)
Definition ulp (f : spec_float) : Q :=
  match f with
  | S754_finite _ _ e => 2 ^ e
  | _ => 0
  end.

Definition and_then {A B : Type} (o : outcome A) (k : A -> outcome B) : outcome B :=
  match o with
  | Returned a => k a
  | Raised e => Raised e
  end.

Notation "x <- c ;; k" := (and_then c (fun x => k))
  (at level 61, c at next level, right associativity).

(** The second argument of [search]: a [chess.engine.Limit] or a number. *)
Inductive TimeLeft : Type :=
  | ALimit (l : Limit)
  | ANumber (x : Number).

(** [timeLeft / 10] once [timeLeft /= 1000] is done: a tenth of the clock,
    in seconds. *)
Definition tenth_of_clock (x : Number) : outcome spec_float :=
  timeLeft <- truediv x 1000 ;;
  truediv (Float timeLeft) 10.

(** Lines 205-209, where [n] is [len(legalMoves)]. *)
Definition searchTime (timeLeft : TimeLeft) (n : nat) : outcome spec_float :=
  let searchTime := literal 1 10 in
  match timeLeft with
  | ALimit _ => Returned searchTime
  | ANumber x =>
      timeLeft <- truediv x 1000 ;;
      product <- mul_int (Z.of_nat n) searchTime ;;
      cap <- truediv (Float timeLeft) 10 ;;
      if gt product cap
      then cap <- truediv (Float timeLeft) 10 ;; truediv (Float cap) (Z.of_nat n)
      else Returned searchTime
  end.

(** [acc = 0.0], then [acc += s] for each slice. *)
Definition running_sum (slices : list spec_float) : spec_float :=
  fold_left (SFadd prec emax) slices (S754_zero false).

End Binary64.

(** ** A small instance: pieces on a line of eight squares

    Enough of a board game to run [search] on concrete positions: a piece
    steps to a neighbouring square that holds no piece of its own side, and
    takes what stands there.  [is_capture] is the test of python-chess (a
    touched square holds a piece of the side that is not to move); [push]
    keeps the previous state on a stack and [pop] puts it back; the side to
    move is in check when an opposing piece stands next to its king.
    Scores are integers. *)
Module Mini.

Record Piece : Type := mkPiece { square : nat; white : bool; king : bool }.

Record MiniBoard : Type := mkBoard {
  pieces : list Piece;
  turn : bool;                               (* [true]: white is to move *)
  move_stack : list (list Piece * bool)
}.

Record MiniMove : Type := mkMove { from_square : nat; to_square : nat }.

Definition occupied_co (b : MiniBoard) (colour : bool) (s : nat) : bool :=
  existsb (fun p => (square p =? s)%nat && Bool.eqb (white p) colour) (pieces b).

Definition neighbours (s : nat) : list nat :=
  (if (s =? 0)%nat then [] else [(s - 1)%nat]) ++ (if (s <? 7)%nat then [(s + 1)%nat] else []).

Definition mini_legal_moves (b : MiniBoard) : list MiniMove :=
  flat_map (fun p =>
    if Bool.eqb (white p) (turn b)
    then map (mkMove (square p))
             (filter (fun s => negb (occupied_co b (turn b) s)) (neighbours (square p)))
    else []) (pieces b).

Definition mini_is_capture (b : MiniBoard) (m : MiniMove) : bool :=
  occupied_co b (negb (turn b)) (from_square m)
  || occupied_co b (negb (turn b)) (to_square m).

Definition mini_push (b : MiniBoard) (m : MiniMove) : MiniBoard :=
  mkBoard
    (map (fun p => if (square p =? from_square m)%nat
                   then mkPiece (to_square m) (white p) (king p) else p)
         (filter (fun p => negb (square p =? to_square m)%nat) (pieces b)))
    (negb (turn b))
    ((pieces b, turn b) :: move_stack b).

(** On an empty stack python-chess raises; [search] pops only after a
    push. *)
Definition mini_pop (b : MiniBoard) : MiniBoard :=
  match move_stack b with
  | (ps, t) :: st => mkBoard ps t st
  | [] => b
  end.

Definition next_to (s1 s2 : nat) : bool := ((s1 =? S s2) || (s2 =? S s1))%nat.

Definition mini_is_check (b : MiniBoard) : bool :=
  existsb (fun k =>
    king k && Bool.eqb (white k) (turn b)
    && existsb (fun p => Bool.eqb (white p) (negb (turn b)) && next_to (square p) (square k))
               (pieces b)) (pieces b).

Definition piece_letter (b : MiniBoard) (s : nat) : string :=
  match find (fun p => (square p =? s)%nat) (pieces b) with
  | None => "."
  | Some p => match white p, king p with
              | true, true => "K" | true, false => "P"
              | false, true => "k" | false, false => "p"
              end
  end.

Definition mini_fen (b : MiniBoard) : string :=
  String.concat "" (map (piece_letter b) (seq 0 8)) ++ (if turn b then " w" else " b").

#[export] Instance lib : ChessLib := {|
  Board := MiniBoard;
  Move := MiniMove;
  Score := Z;
  legal_moves := mini_legal_moves;
  is_capture := mini_is_capture;
  is_check := mini_is_check;
  push := mini_push;
  pop := mini_pop;
  fen := mini_fen;
  score_lt := Z.ltb;
  score_eq := Z.eqb
|}.

Definition step (a b : nat) : Move := mkMove a b.

(** White pieces on 3 and 5, a black pawn on 4, the black king on 7; white
    is to move: 3-2 is quiet, 3-4 and 5-4 take the pawn, 5-6 gives check. *)
Definition middle : Board :=
  mkBoard [mkPiece 3 true false; mkPiece 5 true false;
           mkPiece 4 false false; mkPiece 7 false true] true [].

(** The black king alone, white to move: no legal move. *)
Definition bare : Board := mkBoard [mkPiece 7 false true] true [].

(** A white piece on 0, the black king on 7, white to move: one legal
    move, 0-1. *)
Definition lone : Board :=
  mkBoard [mkPiece 0 true false; mkPiece 7 false true] true [].

(** A white piece on 5, a black pawn on 6 in front of the black king on 7:
    5-6 takes the pawn and gives check, 5-4 is quiet. *)
Definition corner : Board :=
  mkBoard [mkPiece 5 true false; mkPiece 6 false false; mkPiece 7 false true] true [].

(** An engine that scores every position 0 and proposes no best move, a
    random source that always draws 0. *)
Definition level : nat -> Board -> Limit -> Score := fun _ _ _ => 0%Z.

Definition flat : Oracle :=
  mkOracle (fun _ _ => 0%nat) (fun k b l => Returned (level k b l)) (fun _ _ => None).

(** An engine that scores a position by the number of pieces on the board
    (fewer pieces: a higher score for the side to move), and proposes the
    loaded position itself as its best move. *)
Definition count : nat -> Board -> Limit -> Score :=
  fun _ b _ => (8 - Z.of_nat (List.length (pieces b)))%Z.

Definition material : Oracle :=
  mkOracle (fun _ _ => 0%nat) (fun k b l => Returned (count k b l)) (fun _ f => Some f).

(** An engine process that is gone. *)
Definition dead : Oracle :=
  mkOracle (fun _ _ => 0%nat) (fun _ _ _ => Raised (EngineError "terminated"))
           (fun _ _ => None).

Definition start (b : Board) : World := mkWorld b 0 [] [] None 0 None.

End Mini.

(** ** What the scoring loop computes *)

(** The assumptions under which the properties are stated: the engine
    answers every request (with [evalf]), the random source draws inside
    the range it is asked for, [pop] undoes a [push] of one of the moves
    [ms] on the board [b]. *)
Definition engine_answers `{ChessLib} (O : Oracle)
    (evalf : nat -> Board -> Limit -> Score) : Prop :=
  forall k b l, analyse O k b l = Returned (evalf k b l).

Definition draws_in_range `{ChessLib} (O : Oracle) : Prop :=
  forall k n, (0 < n)%nat -> (randbelow O k n < n)%nat.

Definition pop_undoes_push `{ChessLib} (b : Board) (ms : list Move) : Prop :=
  forall m, In m ms -> pop (push b m) = b.

(** The laws of [Score.__lt__] and [Score.__eq__] that make "the greatest
    evaluation" meaningful. *)
Record score_order `{ChessLib} : Prop := {
  lt_irrefl : forall a, score_lt a a = false;
  lt_trans : forall a b c, score_lt a b = true -> score_lt b c = true -> score_lt a c = true;
  lt_eq : forall a b c, score_lt a b = true -> score_eq b c = true -> score_lt a c = true;
  eq_refl_score : forall a, score_eq a a = true
}.

(** The candidates [ms] with their attributes and evaluations, as the loop
    meets them from board [b] when [c] requests have been sent before. *)
Fixpoint scored `{ChessLib} (evalf : nat -> Board -> Limit -> Score) (searchTime : Q)
    (b : Board) (c : nat) (ms : list Move) : list (TaggedMove * Score) :=
  match ms with
  | [] => []
  | m :: ms' =>
      (mkTagged m (is_capture b m) (is_check (push b m)),
       evalf c (push b m) (Limit_time (searchTime - 0.01)))
      :: scored evalf searchTime (pop (push b m)) (S c) ms'
  end.

(** The requests that the loop sends to the engine. *)
Fixpoint requests `{ChessLib} (searchTime : Q) (b : Board) (ms : list Move)
    : list (Board * Limit) :=
  match ms with
  | [] => []
  | m :: ms' =>
      (push b m, Limit_time (searchTime - 0.01)) :: requests searchTime (pop (push b m)) ms'
  end.

(** The board after the loop. *)
Definition board_after `{ChessLib} (b : Board) (ms : list Move) : Board :=
  fold_left (fun b m => pop (push b m)) ms b.

Definition track_all `{ChessLib} (l : list (TaggedMove * Score))
    (st : option Score * list TaggedMove) : option Score * list TaggedMove :=
  fold_left (fun st p => track st (fst p) (snd p)) l st.

(** The three classes of a tied move. *)
Definition quiet `{ChessLib} (t : TaggedMove) : bool := negb (isCapture t) && negb (isCheck t).
Definition plain_check `{ChessLib} (t : TaggedMove) : bool := negb (isCapture t) && isCheck t.


(** The sum of a list of time slices. *)
Definition total (l : list Q) : Q := fold_right Qplus 0 l.

(** The world when the loop over [ms] with slice [s] has ended, and the
    world one random draw later. *)
Definition after_loop `{ChessLib} (w : World) (s : Q) (ms : list Move) : World :=
  mkWorld (board_after (board w) ms) (draws w)
          (evaluate_calls w ++ repeat s (List.length ms))
          (analysed w ++ requests s (board w) ms)
          (sf_position w) (sf_asked w) (move_type_txt w).

Definition drew `{ChessLib} (w : World) : World :=
  mkWorld (board w) (S (draws w)) (evaluate_calls w) (analysed w)
          (sf_position w) (sf_asked w) (move_type_txt w).

(** [worstMoves] when the loop of [search] has ended. *)
Definition tied_of `{ChessLib} (evalf : nat -> Board -> Limit -> Score) (s : Q)
    (w : World) : list TaggedMove :=
  snd (track_all (scored evalf s (board w) (List.length (analysed w))
                         (legal_moves (board w))) (None, [])).

(** ** The example engines of [homemade.py] *)

(** What the example engines read besides [ChessLib]: [board.turn ==
    chess.WHITE], [str(move)] (the move in UCI notation) and
    [board.san(move)]. *)
Class ChessNames `{ChessLib} : Type := {
  turn_white : Board -> bool;
  uci : Move -> string;
  san : Board -> Move -> string
}.

(** [moves.sort(key=key)] on string keys.  The sort of Python is stable, and
    a stable sort has one result: an element goes before the first element
    of the sorted rest whose key is not smaller. *)
Fixpoint insert_by {A : Type} (key : A -> string) (x : A) (l : list A) : list A :=
  match l with
  | [] => [x]
  | y :: l' => if String.leb (key x) (key y) then x :: y :: l' else y :: insert_by key x l'
  end.

Definition sort_by {A : Type} (key : A -> string) (l : list A) : list A :=
  fold_right (insert_by key) [] l.

(** [moves[0]] *)
Definition first_item {A : Type} (l : list A) : outcome A :=
  match l with
  | [] => Raised IndexError
  | x :: _ => Returned x
  end.

(** [m] is the first item of [l] among those with the least key. *)
Definition first_least {A : Type} (key : A -> string) (l : list A) (m : A) : Prop :=
  exists pre post,
    l = pre ++ m :: post
    /\ (forall x, In x pre -> String.ltb (key m) (key x) = true)
    /\ (forall x, In x post -> String.leb (key m) (key x) = true).

(** A value of a field of [chess.engine.Limit], for the code that asks
    [isinstance(value, int)]. *)
Inductive PyValue : Type :=
  | PyNone
  | PyInt (z : Z)
  | PyFloat (q : Q).

(** [isinstance(value, int)] *)
Definition is_int (v : PyValue) : bool :=
  match v with
  | PyInt _ => true
  | _ => false
  end.

(** [chess.engine.Limit] as [ComboEngine.search] reads it. *)
Record TimeControl : Type := mkTimeControl {
  tc_time : PyValue;
  tc_white_clock : PyValue;
  tc_black_clock : PyValue;
  tc_white_inc : PyValue;
  tc_black_inc : PyValue
}.

(** [value if isinstance(value, int) else 0] *)
Definition int_or_zero (v : PyValue) : Z :=
  match v with
  | PyInt z => z
  | _ => 0%Z
  end.

(** [PlayResult(move, None, draw_offered=draw_offered)], with the content of
    the list [root_moves] of the caller when [search] returns. *)
Record ComboResult `{ChessLib} : Type := mkComboResult {
  played : PlayResult Move;
  draw_offered : bool;
  root_moves_after : option (list Move)
}.
Arguments mkComboResult {_} played draw_offered root_moves_after.

Section Examples.
Context `{L : ChessLib} `{N : !ChessNames} (O : Oracle).

Local Notation "x <- c ;; k" := (bind c (fun x => k))
  (at level 61, c at next level, right associativity).

(** [RandomMove.search] *)
Definition RandomMove_search (args : option (list Move)) : M (PlayResult Move) :=
  b <- get_board ;;
  m <- random_choice O (legal_moves b) ;;
  ret (mkPlayResult m None).

(** [Alphabetical.search] *)
Definition Alphabetical_search (args : option (list Move)) : M (PlayResult Move) :=
  b <- get_board ;;
  let moves := sort_by (san b) (legal_moves b) in
  m <- lift (first_item moves) ;;
  ret (mkPlayResult m None).

(** [FirstMove.search] *)
Definition FirstMove_search (args : option (list Move)) : M (PlayResult Move) :=
  b <- get_board ;;
  let moves := sort_by uci (legal_moves b) in
  m <- lift (first_item moves) ;;
  ret (mkPlayResult m None).

(** Lines 96-104 of [ComboEngine.search]: [(my_time, my_inc)]. *)
Definition my_time_inc (b : Board) (time_limit : TimeControl) : Z * Z :=
  match tc_time time_limit with
  | PyInt t => (t, 0%Z)
  | _ =>
      if turn_white b
      then (int_or_zero (tc_white_clock time_limit), int_or_zero (tc_white_inc time_limit))
      else (int_or_zero (tc_black_clock time_limit), int_or_zero (tc_black_inc time_limit))
  end.

(** The times for which the statements about the threshold of line 108 are
    made.  Line 108 computes [my_time / 60 + my_inc] in floats, and
    [ComboEngine_search] below compares the exact numbers: the two agree
    while the rounding stays below the step 1/60 of the exact values, as it
    does, by far, for times up to [10^9] in absolute value.  Far beyond, for
    an [int] outside the range of floats, line 108 raises [OverflowError],
    which [ComboEngine_search] does not have. *)
Definition in_clock_range (z : Z) : Prop := (Z.abs z <= 10 ^ 9)%Z.

(** [ComboEngine.search].  [possible_moves] is the list object [root_moves]
    itself when the caller gave one, so that [possible_moves.sort] sorts the
    list of the caller. *)
Definition ComboEngine_search (time_limit : TimeControl) (ponder : bool)
    (draw_offered : bool) (root_moves : option (list Move)) : M ComboResult :=
  b <- get_board ;;
  let (my_time, my_inc) := my_time_inc b time_limit in
  let possible_moves :=
    match root_moves with
    | Some l => l
    | None => legal_moves b
    end in
  if Qgtb (inject_Z my_time / 60 + inject_Z my_inc) 10 then
    m <- random_choice O possible_moves ;;
    ret (mkComboResult (mkPlayResult m None) draw_offered root_moves)
  else
    let sorted := sort_by uci possible_moves in
    m <- lift (first_item sorted) ;;
    ret (mkComboResult (mkPlayResult m None) draw_offered
           (match root_moves with Some _ => Some sorted | None => None end)).

End Examples.

(** ** [lib/conversation.py]

    Strings are sequences of bytes; [lower] maps the letters A to Z, as
    [str.lower] does on ASCII text.  What the game, the engine and the
    challenge queue answer during one call is an [Env]; the calls made on
    [li] and on [game], and the two attributes that [Conversation] changes,
    are the state. *)
Module Chat.

Record ChatLine : Type := mkChatLine {
  room : string;
  username : string;
  text : string
}.

(** [message_info[key]], with the key of the [KeyError] on the left. *)
Fixpoint dict_get (message_info : list (string * string)) (key : string)
    : string + string :=
  match message_info with
  | [] => inl key
  | (k, v) :: rest => if String.eqb k key then inr v else dict_get rest key
  end.

(** [ChatLine.__init__] *)
Definition ChatLine_init (message_info : list (string * string)) : string + ChatLine :=
  match dict_get message_info "room" with
  | inl k => inl k
  | inr r =>
      match dict_get message_info "username" with
      | inl k => inl k
      | inr u =>
          match dict_get message_info "text" with
          | inl k => inl k
          | inr t => inr (mkChatLine r u t)
          end
      end
  end.

Definition lower_char (c : ascii) : ascii :=
  if (Ascii.leb "A" c && Ascii.leb c "Z")%bool
  then ascii_of_nat (nat_of_ascii c + 32)
  else c.

(** [s.lower()] *)
Fixpoint lower (s : string) : string :=
  match s with
  | EmptyString => EmptyString
  | String c s' => String (lower_char c) (lower s')
  end.

(** [needle in hay] *)
Fixpoint contains (needle hay : string) : bool :=
  match hay with
  | EmptyString => String.prefix needle EmptyString
  | String _ hay' => String.prefix needle hay || contains needle hay'
  end.


Record Env : Type := mkEnv {
  game_id : string;                  (* [game.id] *)
  game_username : string;            (* [game.username] *)
  game_me_name : string;             (* [game.me.name] *)
  game_is_abortable : bool;          (* [game.is_abortable()] *)
  engine_name : string;              (* [engine.name()] *)
  engine_stats : list string;        (* [engine.get_stats(for_chat=True)] *)
  version : string;
  challengers : list string          (* [challenger.challenger.name] of the queue *)
}.

(** [Observer()] after [schedule(event_handler, path, recursive)] and
    [start()]. *)
Record Observer : Type := mkObserver {
  watched : string;
  recursive : bool
}.

Record Conversation : Type := mkConversation {
  observer : option Observer;                (* [self.observer] *)
  observer_enabled : bool;                   (* [self.observer_enabled] *)
  chatted : list (string * string * string); (* calls [li.chat(id, room, text)] *)
  pinged : list (Z * Z * Z)                  (* calls [game.ping], in seconds *)
}.

Section Methods.
Variable E : Env.

(** [send_reply] *)
Definition send_reply (line : ChatLine) (reply : string) (c : Conversation)
    : Conversation :=
  mkConversation (observer c) (observer_enabled c)
                 (chatted c ++ [(game_id E, room line, reply)]) (pinged c).

(** [send_message] *)
Definition send_message (room : string) (message : string) (c : Conversation)
    : Conversation :=
  match message with
  | EmptyString => c
  | String _ _ => send_reply (mkChatLine room "" "") message c
  end.

(** [start_file_observer] *)
Definition start_file_observer (c : Conversation) : Conversation :=
  match observer c with
  | None => mkConversation (Some (mkObserver "." false)) (observer_enabled c)
                           (chatted c) (pinged c)
  | Some _ => c
  end.

(** [stop_file_observer] *)
Definition stop_file_observer (c : Conversation) : Conversation :=
  match observer c with
  | Some _ => mkConversation None (observer_enabled c) (chatted c) (pinged c)
  | None => c
  end.

Definition set_observer_enabled (v : bool) (c : Conversation) : Conversation :=
  mkConversation (observer c) v (chatted c) (pinged c).

(** [toggle_file_observer] *)
Definition toggle_file_observer (c : Conversation) : Conversation :=
  if observer_enabled c then
    send_message "player" "Stopped Move Teller"
      (set_observer_enabled false (stop_file_observer c))
  else
    send_message "player" "Started Move Teller"
      (set_observer_enabled true (start_file_observer c)).

(** [game.ping(seconds(60), seconds(120), seconds(120))] *)
Definition ping (c : Conversation) : Conversation :=
  mkConversation (observer c) (observer_enabled c) (chatted c)
                 (pinged c ++ [(60, 120, 120)%Z]).

(** [command] *)
Definition command (line : ChatLine) (cmd : string) (c : Conversation) : Conversation :=
  let from_self := String.eqb (username line) (game_username E) in
  let c := if contains "tellmoves" (lower cmd) then toggle_file_observer c else c in
  if (String.eqb cmd "commands" || String.eqb cmd "help")%bool then
    send_reply line
      "Supported commands: !wait (wait a minute for my first move), !name, !howto, !eval, !queue"
      c
  else if (String.eqb cmd "wait" && game_is_abortable E)%bool then
    send_reply line "Waiting 60 seconds..." (ping c)
  else if String.eqb cmd "name" then
    send_reply line
      (game_me_name E ++ " running " ++ engine_name E
         ++ " (lichess-bot v" ++ version E ++ ")")%string c
  else if String.eqb cmd "howto" then
    send_reply line "How to run: Check out 'Lichess Bot API'" c
  else if (String.eqb cmd "eval"
           && (from_self || String.eqb (room line) "spectator"))%bool then
    send_reply line (String.concat ", " (engine_stats E)) c
  else if String.eqb cmd "eval" then
    send_reply line "I don't tell that to my opponent, sorry." c
  else if String.eqb cmd "queue" then
    match challengers E with
    | _ :: _ =>
        send_reply line
          ("Challenge queue: "
             ++ String.concat ", "
                  (map (fun name => "@" ++ name) (rev (challengers E))))%string c
    | [] => send_reply line "No challenges queued." c
    end
  else if String.eqb cmd "test" then
    send_reply line "The test worked so that's pretty cool (Easter Egg)" c
  else c.

(** The first step of [command]: the toggle of the observer when the
    command contains the word. *)
Definition toggled (cmd : string) (c : Conversation) : Conversation :=
  if contains "tellmoves" (lower cmd) then toggle_file_observer c else c.

(** [react] *)
Definition react (line : ChatLine) (c : Conversation) : outcome unit * Conversation :=
  match text line with
  | EmptyString => (Raised IndexError, c)
  | String first rest =>
      if Ascii.eqb first "!" then (Returned tt, command line (lower rest) c)
      else (Returned tt, c)
  end.


End Methods.

(** The words that [command] compares [cmd] with. *)
Definition known_commands : list string :=
  ["commands"; "help"; "wait"; "name"; "howto"; "eval"; "queue"; "test"]%string.

(** The environment [E] with other statistics of the engine. *)
Definition with_stats (E : Env) (stats : list string) : Env :=
  mkEnv (game_id E) (game_username E) (game_me_name E) (game_is_abortable E)
        (engine_name E) stats (version E) (challengers E).

(** [self.observer] exists exactly when [self.observer_enabled] holds. *)
Definition consistent (c : Conversation) : Prop :=
  observer_enabled c = true <-> observer c <> None.

End Chat.

(** A second small instance: the names of the moves of [Mini]. *)
Module MiniNames.

Definition digit (n : nat) : string :=
  String (ascii_of_nat (48 + n)) EmptyString.

#[export] Instance names : @ChessNames Mini.lib := {|
  turn_white := fun b : @Board Mini.lib => Mini.turn b;
  uci := fun m : @Move Mini.lib =>
    (digit (Mini.from_square m) ++ digit (Mini.to_square m))%string;
  san := fun (b : @Board Mini.lib) (m : @Move Mini.lib) =>
    ((if Mini.mini_is_capture b m then "x" else "") ++ digit (Mini.to_square m)
       ++ digit (Mini.from_square m))%string
|}.

(** White pieces on 0 and 5, a black pawn on 1, the black king on 7: the
    moves are 0-1 (which takes the pawn), 5-4 and 5-6. *)
Definition spread : @Board Mini.lib :=
  Mini.mkBoard [Mini.mkPiece 0 true false; Mini.mkPiece 5 true false;
                Mini.mkPiece 1 false false; Mini.mkPiece 7 false true] true [].

(** [Mini.middle] with its pieces listed in another order, so that the
    legal moves are enumerated in another order. *)
Definition middle_reordered : @Board Mini.lib :=
  Mini.mkBoard [Mini.mkPiece 7 false true; Mini.mkPiece 5 true false;
                Mini.mkPiece 4 false false; Mini.mkPiece 3 true false] true [].


(** A conversation of the bot fish with nothing said yet. *)
Definition env : Chat.Env :=
  Chat.mkEnv "game1" "fish" "BizarrioFish" true "TestFish" ["+0.3"; "depth 12"]%string
             "1.0" ["ann"; "bob"]%string.

Definition fresh : Chat.Conversation := Chat.mkConversation None false [] [].

End MiniNames.

Section Loop.
Context `{L : ChessLib} (O : Oracle).
Variable evalf : nat -> Board -> Limit -> Score.
Hypothesis answers : engine_answers O evalf.

Lemma score_candidate_run (s : Q) (m : Move) st (w : World) :
  score_candidate O s m st w =
  (Returned (track st (mkTagged m (is_capture (board w) m) (is_check (push (board w) m)))
                   (evalf (List.length (analysed w)) (push (board w) m)
                          (Limit_time (s - 0.01)))),
   mkWorld (pop (push (board w) m)) (draws w) (evaluate_calls w ++ [s])
           (analysed w ++ [(push (board w) m, Limit_time (s - 0.01))])
           (sf_position w) (sf_asked w) (move_type_txt w)).
Proof.
  unfold score_candidate, evaluate, bind, get_board, board_push, board_pop, set_board,
    note_evaluate, stockfish_analyse, ret, bind; simpl.
  rewrite answers. reflexivity.
Qed.

Lemma for_each_run (s : Q) (ms : list Move) : forall st (w : World),
  for_each (score_candidate O s) ms st w =
  (Returned (track_all (scored evalf s (board w) (List.length (analysed w)) ms) st),
   mkWorld (board_after (board w) ms) (draws w)
           (evaluate_calls w ++ repeat s (List.length ms))
           (analysed w ++ requests s (board w) ms)
           (sf_position w) (sf_asked w) (move_type_txt w)).
Proof.
  induction ms as [|m ms IH]; intros st w.
  - simpl. unfold ret, track_all, board_after. simpl.
    rewrite !app_nil_r. destruct w; reflexivity.
  - cbn [for_each]. unfold bind at 1. rewrite score_candidate_run.
    rewrite IH. cbn [board analysed evaluate_calls draws sf_position sf_asked move_type_txt].
    rewrite length_app. cbn [List.length]. rewrite Nat.add_1_r.
    rewrite <- !app_assoc. reflexivity.
Qed.

Lemma random_choice_returned {A : Type} (l : list A) (w w' : World) (x : A) :
  random_choice O l w = (Returned x, w') ->
  nth_error l (randbelow O (draws w) (List.length l)) = Some x /\ w' = drew w.
Proof.
  unfold random_choice. destruct l as [|a l]; [discriminate|].
  destruct (nth_error _ _) eqn:E; intros H; inversion H; subst. auto.
Qed.

Lemma random_choice_raised {A : Type} (l : list A) (w w' : World) (e : exn) :
  random_choice O l w = (Raised e, w') -> e = IndexError.
Proof.
  unfold random_choice. destruct l as [|a l]; [now inversion 1|].
  destruct (nth_error _ _); inversion 1; auto.
Qed.

Lemma random_choice_total {A : Type} (l : list A) (w : World) :
  draws_in_range O -> l <> [] ->
  exists x, nth_error l (randbelow O (draws w) (List.length l)) = Some x
            /\ random_choice O l w = (Returned x, drew w).
Proof.
  intros Hr Hl. unfold random_choice. destruct l as [|a l]; [congruence|].
  destruct (nth_error (a :: l) _) as [x|] eqn:E.
  - exists x. auto.
  - apply nth_error_None in E.
    pose proof (Hr (draws w) (List.length (a :: l))) as H. simpl in *. lia.
Qed.

(** [search], once the loop is replaced by what it computes. *)
Lemma WorstFish_search_run (timeLeft : TimeLeft) args (w : World) :
  WorstFish_search O timeLeft args w =
  match searchTime_of timeLeft (legal_moves (board w)) with
  | Raised e => (Raised e, w)
  | Returned s =>
      match random_choice O (chosen_bucket (partition_worst (tied_of evalf s w)))
                          (after_loop w s (legal_moves (board w))) with
      | (Returned m, w') => (Returned (mkPlayResult m None), w')
      | (Raised e, w') => (Raised e, w')
      end
  end.
Proof.
  unfold WorstFish_search, bind, get_board, lift.
  destruct (searchTime_of timeLeft (legal_moves (board w))) as [s|e]; [|reflexivity].
  rewrite for_each_run. fold (tied_of evalf s w). fold (after_loop w s (legal_moves (board w))).
  destruct (partition_worst (tied_of evalf s w)) as [[caps checks] other].
  unfold chosen_bucket.
  destruct (negb (List.length other =? 0)%nat); [reflexivity|].
  destruct (negb (List.length checks =? 0)%nat); reflexivity.
Qed.

End Loop.


(** ** Facts about the pure parts *)

Section Pure.
Context `{L : ChessLib}.

Lemma classify_fold (l : list TaggedMove) : forall a b c,
  fold_left classify l (a, b, c) =
  (a ++ filter isCapture l, b ++ filter plain_check l, c ++ filter quiet l).
Proof.
  induction l as [|t l IH]; intros a b c; simpl.
  - now rewrite !app_nil_r.
  - unfold plain_check, quiet.
    destruct (isCapture t), (isCheck t); simpl; rewrite IH;
      unfold plain_check, quiet; now rewrite <- ?app_assoc.
Qed.

Lemma partition_worst_filters (l : list TaggedMove) :
  partition_worst l = (filter isCapture l, filter plain_check l, filter quiet l).
Proof. unfold partition_worst. now rewrite classify_fold. Qed.

(** The chosen list is one of the three classes, and is empty only when the
    tied list is. *)
Lemma chosen_bucket_cases (l : list TaggedMove) :
  let b := chosen_bucket (partition_worst l) in
  (filter quiet l <> [] /\ b = filter quiet l)
  \/ (filter quiet l = [] /\ filter plain_check l <> [] /\ b = filter plain_check l)
  \/ (filter quiet l = [] /\ filter plain_check l = [] /\ b = filter isCapture l).
Proof.
  rewrite partition_worst_filters. unfold chosen_bucket.
  destruct (filter quiet l) as [|q qs] eqn:Eq; simpl.
  - destruct (filter plain_check l) as [|k ks] eqn:Ek; simpl.
    + right; right; auto.
    + right; left; repeat split; congruence.
  - left; split; congruence.
Qed.

Lemma class_of (t : TaggedMove) :
  quiet t = true \/ plain_check t = true \/ isCapture t = true.
Proof. unfold quiet, plain_check. destruct (isCapture t), (isCheck t); simpl; auto. Qed.

Lemma filter_nil_none {A : Type} (f : A -> bool) (l : list A) (x : A) :
  filter f l = [] -> In x l -> f x = false.
Proof.
  intros E Hin. destruct (f x) eqn:Fx; [|reflexivity].
  assert (Hx : In x (filter f l)) by (apply filter_In; auto).
  rewrite E in Hx. destruct Hx.
Qed.

Lemma filter_none {A : Type} (f : A -> bool) (l : list A) :
  (forall x, In x l -> f x = false) -> filter f l = [].
Proof.
  induction l as [|a l IH]; intros H; simpl; [reflexivity|].
  rewrite (H a (or_introl eq_refl)). apply IH. intros x Hx. apply H. now right.
Qed.


Lemma chosen_bucket_incl (l : list TaggedMove) (t : TaggedMove) :
  In t (chosen_bucket (partition_worst l)) -> In t l.
Proof.
  destruct (chosen_bucket_cases l) as [[_ ->]|[[_ [_ ->]]|[_ [_ ->]]]];
    intros H; apply filter_In in H; tauto.
Qed.



(** Every tied move is one of the candidates. *)
Lemma track_all_incl (l : list (TaggedMove * Score)) : forall st t,
  In t (snd (track_all l st)) -> In t (snd st) \/ In t (map fst l).
Proof.
  induction l as [|[t0 e] l IH]; intros st t; unfold track_all; simpl; [auto|].
  intros H. apply IH in H. destruct H as [H|H]; [|auto].
  destruct st as [[w|] tied]; simpl in H.
  - destruct (score_lt w e); simpl in H; [destruct H as [<-|[]]; auto|].
    destruct (score_eq w e); simpl in H; [|auto].
    apply in_app_or in H. destruct H as [H|[<-|[]]]; auto.
  - destruct H as [<-|[]]; auto.
Qed.

Lemma track_all_app l1 l2 st :
  track_all (l1 ++ l2) st = track_all l2 (track_all l1 st).
Proof. unfold track_all. apply fold_left_app. Qed.

(** The state of the loop after the candidates [l]: the greatest evaluation
    met, and the candidates that reach it, in the order of the loop. *)
Lemma track_all_greatest (Hord : score_order) (l : list (TaggedMove * Score)) :
  l <> [] ->
  exists worst,
    track_all l (None, []) =
      (Some worst, map fst (filter (fun p => score_eq worst (snd p)) l))
    /\ In worst (map snd l)
    /\ forall e, In e (map snd l) -> score_lt worst e = false.
Proof.
  induction l as [|[t e] l IH] using rev_ind; [congruence|]. intros _.
  rewrite track_all_app. destruct l as [|p l].
  - simpl. exists e. unfold track_all; simpl.
    rewrite (eq_refl_score Hord). repeat split; auto.
    intros e' [<-|[]]. apply (lt_irrefl Hord).
  - destruct IH as (w & Est & Hin & Hmax); [discriminate|].
    set (pl := p :: l) in *. clearbody pl.
    rewrite Est. unfold track_all at 1. cbn [fold_left fst snd track].
    destruct (score_lt w e) eqn:Elt.
    + exists e. rewrite !map_app, filter_app, map_app. cbn [map filter fst snd].
      rewrite (eq_refl_score Hord). split; [|split].
      * f_equal.
        replace (filter (fun p0 => score_eq e (snd p0)) pl)
          with (@nil (TaggedMove * Score)); [reflexivity|].
        symmetry. apply filter_none. intros [t' e'] Hin'. cbn [snd].
        destruct (score_eq e e') eqn:Eeq; [|reflexivity].
        pose proof (lt_eq Hord w e e' Elt Eeq) as Hc.
        rewrite (Hmax e') in Hc; [discriminate|].
        apply in_map_iff. exists (t', e'); auto.
      * apply in_or_app; right; now left.
      * intros e' Hin'. apply in_app_or in Hin'. destruct Hin' as [Hin'|[<-|[]]].
        -- destruct (score_lt e e') eqn:Ee; [|reflexivity].
           pose proof (lt_trans Hord w e e' Elt Ee) as Hc.
           rewrite (Hmax e' Hin') in Hc. discriminate.
        -- apply (lt_irrefl Hord).
    + exists w. rewrite !map_app, filter_app, map_app. cbn [map filter fst snd].
      split; [|split].
      * destruct (score_eq w e); reflexivity || (simpl; now rewrite app_nil_r).
      * apply in_or_app; now left.
      * intros e' Hin'. apply in_app_or in Hin'. destruct Hin' as [Hin'|[<-|[]]]; auto.
Qed.

End Pure.

Section Candidates.
Context `{L : ChessLib}.
Variable evalf : nat -> Board -> Limit -> Score.


Lemma scored_length (s : Q) (ms : list Move) : forall b c,
  List.length (scored evalf s b c ms) = List.length ms.
Proof. induction ms as [|m ms IH]; intros b c; simpl; [|rewrite IH]; reflexivity. Qed.

Lemma board_after_undone (b : Board) (ms : list Move) :
  pop_undoes_push b ms -> board_after b ms = b.
Proof.
  unfold board_after. induction ms as [|m ms IH]; intros H; simpl; [reflexivity|].
  rewrite (H m (or_introl eq_refl)). apply IH. intros m' Hm'. apply H. now right.
Qed.

Lemma requests_undone (s : Q) (b : Board) (ms : list Move) :
  pop_undoes_push b ms ->
  requests s b ms = map (fun m => (push b m, Limit_time (s - 0.01))) ms.
Proof.
  induction ms as [|m ms IH]; intros H; simpl; [reflexivity|].
  rewrite (H m (or_introl eq_refl)). rewrite IH; [reflexivity|].
  intros m' Hm'. apply H. now right.
Qed.

(** With an exact [pop], every candidate is tagged and evaluated from the
    same board. *)
Lemma scored_undone (s : Q) (b : Board) (ms : list Move) : forall c t e,
  pop_undoes_push b ms ->
  In (t, e) (scored evalf s b c ms) ->
  In (the_move t) ms
  /\ isCapture t = is_capture b (the_move t)
  /\ isCheck t = is_check (push b (the_move t))
  /\ exists k, e = evalf k (push b (the_move t)) (Limit_time (s - 0.01)).
Proof.
  induction ms as [|m ms IH]; intros c t e H Hin; simpl in Hin; [destruct Hin|].
  destruct Hin as [Heq|Hin].
  - inversion Heq; subst; simpl. repeat split; eauto.
  - rewrite (H m (or_introl eq_refl)) in Hin.
    apply IH in Hin; [|intros m' Hm'; apply H; now right].
    destruct Hin as (H1 & H2 & H3 & H4). repeat split; auto. now right.
Qed.

Lemma tied_are_candidates (s : Q) (w : World) (t : TaggedMove) :
  In t (tied_of evalf s w) ->
  exists e, In (t, e) (scored evalf s (board w) (List.length (analysed w))
                              (legal_moves (board w))).
Proof.
  unfold tied_of. intros H. apply track_all_incl in H. destruct H as [[]|H].
  apply in_map_iff in H. destruct H as [[t' e] [<- H]]. eauto.
Qed.


End Candidates.

(** ** Facts about the time slice *)

Section Slice.
Context `{L : ChessLib}.


Lemma len_le (ms1 ms2 : list Move) :
  (List.length ms1 <= List.length ms2)%nat -> len ms1 <= len ms2.
Proof. intros H. unfold len. rewrite <- Zle_Qle. lia. Qed.

Lemma Qgtb_true (x y : Q) : Qgtb x y = true <-> y < x.
Proof.
  unfold Qgtb. rewrite negb_true_iff. split; intros H.
  - apply Qnot_le_lt. intros Hle. apply Qle_bool_iff in Hle. congruence.
  - destruct (Qle_bool x y) eqn:E; [|reflexivity].
    apply Qle_bool_iff in E. exfalso. apply (Qlt_not_le _ _ H E).
Qed.




Lemma total_repeat (s : Q) (n : nat) :
  total (repeat s n) == inject_Z (Z.of_nat n) * s.
Proof.
  induction n as [|n IH].
  - simpl. ring.
  - cbn [repeat total fold_right]. fold (total (repeat s n)). rewrite IH.
    rewrite Nat2Z.inj_succ. unfold Z.succ. rewrite inject_Z_plus. ring.
Qed.

End Slice.



(** ** Facts about whole calls *)

Section AnyEngine.
Context `{L : ChessLib} (O : Oracle).

(** One turn of the loop, whatever the engine does: the candidate is
    reverted when the evaluation returns, and stays applied when it
    raises. *)
Lemma score_candidate_board (s : Q) (m : Move) st (w : World) out w' :
  score_candidate O s m st w = (out, w') ->
  (exists st', out = Returned st' /\ board w' = pop (push (board w) m))
  \/ (exists e, out = Raised e /\ board w' = push (board w) m).
Proof.
  unfold score_candidate, evaluate, bind, get_board, board_push, board_pop, set_board,
    note_evaluate, stockfish_analyse, ret; simpl.
  destruct (analyse O (List.length (analysed w)) (push (board w) m) (Limit_time (s - 0.01)));
    intros H; inversion H; subst; simpl; eauto.
Qed.

Lemma for_each_board (s : Q) (ms : list Move) : forall st (w : World) st' w',
  pop_undoes_push (board w) ms ->
  for_each (score_candidate O s) ms st w = (Returned st', w') ->
  board w' = board w.
Proof.
  induction ms as [|m ms IH]; intros st w st' w' Hpop Hrun.
  - inversion Hrun. reflexivity.
  - cbn [for_each] in Hrun. unfold bind at 1 in Hrun.
    destruct (score_candidate O s m st w) as [[st1|e] w1] eqn:E1; [|discriminate].
    destruct (score_candidate_board _ _ _ _ _ _ E1) as [(st2 & _ & Hb)|(e & He & _)];
      [|discriminate].
    rewrite (Hpop m (or_introl eq_refl)) in Hb.
    rewrite <- Hb. apply (IH st1 w1 st' w'); [|exact Hrun].
    rewrite Hb. intros m' Hm'. apply Hpop. now right.
Qed.

(** The loop, whatever the engine does: when it ends, each candidate was
    applied once and reverted once, in turn. *)
Lemma for_each_board_after (s : Q) (ms : list Move) : forall st (w : World) st' w',
  for_each (score_candidate O s) ms st w = (Returned st', w') ->
  board w' = board_after (board w) ms.
Proof.
  induction ms as [|m ms IH]; intros st w st' w' Hrun.
  - inversion Hrun. reflexivity.
  - cbn [for_each] in Hrun. unfold bind at 1 in Hrun.
    destruct (score_candidate O s m st w) as [[st1|e] w1] eqn:E1; [|discriminate].
    destruct (score_candidate_board _ _ _ _ _ _ E1) as [(st2 & _ & Hb)|(e & He & _)];
      [|discriminate].
    rewrite (IH st1 w1 st' w' Hrun), Hb. reflexivity.
Qed.

Lemma WorstFish_search_returned (timeLeft : TimeLeft) args (w : World) r w' :
  WorstFish_search O timeLeft args w = (Returned r, w') ->
  exists s st w1,
    for_each (score_candidate O s) (legal_moves (board w)) (None, []) w = (Returned st, w1)
    /\ board w' = board w1
    /\ In (move r) (chosen_bucket (partition_worst (snd st))).
Proof.
  unfold WorstFish_search, bind, get_board, lift.
  destruct (searchTime_of timeLeft (legal_moves (board w))) as [s|e]; [|discriminate].
  destruct (for_each _ _ _ w) as [[st|e] w1] eqn:E; [|discriminate].
  intros Hrun. exists s, st, w1. split; [exact E|].
  unfold chosen_bucket.
  destruct (partition_worst (snd st)) as [[caps checks] other].
  destruct (negb (List.length other =? 0)%nat);
    [|destruct (negb (List.length checks =? 0)%nat)];
    match type of Hrun with
    | context [random_choice O ?l w1] =>
        destruct (random_choice O l w1) as [[m|e] w2] eqn:Ec; [|discriminate];
        apply random_choice_returned in Ec; destruct Ec as [Hnth ->];
        inversion Hrun; subst; split; [reflexivity|];
        cbn [move]; eapply nth_error_In; eassumption
    end.
Qed.

End AnyEngine.



Lemma requests_time `{L : ChessLib} (s : Q) (ms : list Move) : forall b p,
  In p (requests s b ms) -> snd p = Limit_time (s - 0.01).
Proof.
  induction ms as [|m ms IH]; intros b p Hin; simpl in Hin; [destruct Hin|].
  destruct Hin as [<-|Hin]; [reflexivity|]. eapply IH; eassumption.
Qed.

Lemma requests_length `{L : ChessLib} (s : Q) (ms : list Move) : forall b,
  List.length (requests s b ms) = List.length ms.
Proof. induction ms as [|m ms IH]; intros b; simpl; [|rewrite IH]; reflexivity. Qed.


Lemma capture_without_captures `{L : ChessLib} (O : Oracle) (timeLeft : TimeLeft)
    (args : option (list Move)) (w : World) :
  filter (is_capture (board w)) (legal_moves (board w)) = [] ->
  TestFish_branch O Capture timeLeft args w = TestFish_branch O Best timeLeft args w.
Proof.
  intros Hnone. unfold TestFish_branch, bind, get_board. rewrite Hnone. reflexivity.
Qed.


(** ** Facts about the small instance *)

Lemma mini_score_order : @score_order Mini.lib.
Proof.
  constructor; simpl.
  - apply Z.ltb_irrefl.
  - intros a b c H1 H2. apply Z.ltb_lt in H1, H2. apply Z.ltb_lt. lia.
  - intros a b c H1 H2. apply Z.ltb_lt in H1. apply Z.eqb_eq in H2. apply Z.ltb_lt. lia.
  - apply Z.eqb_refl.
Qed.

Lemma mini_pop_push (b : Mini.MiniBoard) (m : Mini.MiniMove) :
  Mini.mini_pop (Mini.mini_push b m) = b.
Proof. destruct b; reflexivity. Qed.

(** ** Facts about rounding

    What [binary_round_aux] of the Standard Library does to a mantissa: it
    shifts digits out, rounds the last one kept and shifts once more, so the
    result is within one unit in the last place of the number rounded. *)

Section Rounding.
Variables prec emax : Z.
Local Open Scope Z_scope.

Lemma shr_1_half (mrs : shr_record) :
  (0 <= shr_m mrs -> 0 <= shr_m (shr_1 mrs) /\ 2 * shr_m (shr_1 mrs) <= shr_m mrs)%Z.
Proof.
  destruct mrs as [m r s]. simpl.
  destruct m as [|[p|p|]|[p|p|]]; simpl; lia.
Qed.

Lemma iter_shr_1 (p : positive) : forall mrs, (0 <= shr_m mrs)%Z ->
  (0 <= shr_m (iter_pos shr_1 p mrs)
   /\ shr_m (iter_pos shr_1 p mrs) * 2 ^ Zpos p <= shr_m mrs)%Z.
Proof.
  induction p as [p IH|p IH|]; intros mrs H; cbn [iter_pos].
  - destruct (shr_1_half mrs H) as [H1 H2].
    destruct (IH _ H1) as [H3 H4]. destruct (IH _ H3) as [H5 H6].
    split; [exact H5|].
    replace (Z.pos p~1) with (Z.pos p + Z.pos p + 1)%Z by lia.
    rewrite !Z.pow_add_r by lia. change (2 ^ 1)%Z with 2%Z.
    assert (0 < 2 ^ Z.pos p)%Z by (apply Z.pow_pos_nonneg; lia). nia.
  - destruct (IH _ H) as [H3 H4]. destruct (IH _ H3) as [H5 H6].
    split; [exact H5|].
    replace (Z.pos p~0) with (Z.pos p + Z.pos p)%Z by lia.
    rewrite !Z.pow_add_r by lia.
    assert (0 < 2 ^ Z.pos p)%Z by (apply Z.pow_pos_nonneg; lia). nia.
  - destruct (shr_1_half mrs H) as [H1 H2]. split; [exact H1|].
    change (2 ^ 1)%Z with 2%Z. lia.
Qed.

Lemma shr_truncates (mrs : shr_record) (e k : Z) :
  (0 <= shr_m mrs)%Z ->
  (0 <= shr_m (fst (shr mrs e k))
   /\ e <= snd (shr mrs e k)
   /\ shr_m (fst (shr mrs e k)) * 2 ^ (snd (shr mrs e k) - e) <= shr_m mrs)%Z.
Proof.
  intros H. unfold shr. destruct k as [|p|p]; cbn [fst snd].
  - rewrite Z.sub_diag. simpl. lia.
  - destruct (iter_shr_1 p mrs H) as [H1 H2].
    replace (e + Z.pos p - e)%Z with (Z.pos p) by lia. split; [exact H1|]. split; [lia|exact H2].
  - rewrite Z.sub_diag. simpl. lia.
Qed.

Lemma shr_record_of_loc_m (m : Z) (l : location) : shr_m (shr_record_of_loc m l) = m.
Proof. destruct l as [|[| |]]; reflexivity. Qed.

Lemma round_nearest_even_le (m : Z) (l : location) :
  (m <= round_nearest_even m l <= m + 1)%Z.
Proof.
  unfold round_nearest_even. destruct l as [|[| |]]; try lia.
  destruct (Z.even m); lia.
Qed.

(** The result of rounding is at most one unit in the last place above the
    number rounded. *)
Lemma binary_round_aux_above (sx : bool) (mx ex : Z) (lx : location) (m : positive) (e : Z) :
  (0 <= mx)%Z ->
  binary_round_aux prec emax sx mx ex lx = S754_finite sx m e ->
  (ex <= e /\ (Zpos m - 1) * 2 ^ (e - ex) <= mx)%Z.
Proof.
  intros Hmx. unfold binary_round_aux, shr_fexp.
  set (k1 := (fexp prec emax (Zdigits2 mx + ex) - ex)%Z).
  pose proof (shr_truncates (shr_record_of_loc mx lx) ex k1) as H1.
  rewrite shr_record_of_loc_m in H1. specialize (H1 Hmx).
  destruct (shr (shr_record_of_loc mx lx) ex k1) as [mrs1 e1]. cbn [fst snd] in H1.
  destruct H1 as (H1a & H1b & H1c).
  pose proof (round_nearest_even_le (shr_m mrs1) (loc_of_shr_record mrs1)) as Hr.
  set (m2 := round_nearest_even (shr_m mrs1) (loc_of_shr_record mrs1)) in *.
  set (k2 := (fexp prec emax (Zdigits2 m2 + e1) - e1)%Z).
  pose proof (shr_truncates (shr_record_of_loc m2 loc_Exact) e1 k2) as H2.
  rewrite shr_record_of_loc_m in H2. specialize (H2 ltac:(lia)).
  destruct (shr (shr_record_of_loc m2 loc_Exact) e1 k2) as [mrs2 e2]. cbn [fst snd] in H2.
  destruct H2 as (H2a & H2b & H2c).
  destruct (shr_m mrs2) as [|m3|m3] eqn:E3; try discriminate.
  destruct (Z.leb e2 (emax - prec)); [|discriminate].
  intros H. inversion H; subst m3 e2. clear H.
  split; [lia|].
  replace (e - ex)%Z with ((e - e1) + (e1 - ex))%Z by lia.
  rewrite Z.pow_add_r by lia.
  assert (0 < 2 ^ (e - e1))%Z by (apply Z.pow_pos_nonneg; lia).
  assert (0 < 2 ^ (e1 - ex))%Z by (apply Z.pow_pos_nonneg; lia).
  nia.
Qed.

Lemma SFdiv_core_below (m1 e1 m2 e2 : Z) :
  (0 < m1 -> 0 < m2 ->
   let '(q, e', _) := SFdiv_core_binary prec emax m1 e1 m2 e2 in
   0 <= q /\ e' <= e1 - e2 /\ q * m2 <= m1 * 2 ^ (e1 - e2 - e'))%Z.
Proof.
  intros H1 H2. unfold SFdiv_core_binary.
  set (e' := Z.min _ _).
  assert (He : (e' <= e1 - e2)%Z) by (unfold e'; lia).
  set (s := (e1 - e2 - e')%Z).
  assert (Hm : (match s with Zpos _ => Z.shiftl m1 s | Z0 => m1 | Zneg _ => 0 end
               = m1 * 2 ^ s)%Z).
  { destruct s as [|p|p] eqn:Es; [simpl; lia| |lia]. rewrite Z.shiftl_mul_pow2; lia. }
  rewrite Hm.
  pose proof (Z_div_mod (m1 * 2 ^ s) m2 ltac:(lia)) as Hd.
  destruct (Z.div_eucl (m1 * 2 ^ s) m2) as [q r].
  assert (Hp : (0 < 2 ^ s)%Z) by (apply Z.pow_pos_nonneg; unfold s; lia).
  assert (Hx : (0 < m1 * 2 ^ s)%Z) by nia.
  destruct Hd as [Hd Hr].
  split; [|split; [exact He|subst s; lia]].
  destruct (Z_lt_le_dec q 0) as [Hq|Hq]; [exfalso; nia|exact Hq].
Qed.

Lemma shr_1_double (mrs : shr_record) :
  (0 <= shr_m mrs -> shr_m mrs <= 2 * shr_m (shr_1 mrs) + 1)%Z.
Proof.
  destruct mrs as [m r s]. simpl.
  destruct m as [|[p|p|]|[p|p|]]; simpl; lia.
Qed.

Lemma iter_shr_1_back (p : positive) : forall mrs, (0 <= shr_m mrs)%Z ->
  (shr_m mrs < (shr_m (iter_pos shr_1 p mrs) + 1) * 2 ^ Zpos p)%Z.
Proof.
  induction p as [p IH|p IH|]; intros mrs H; cbn [iter_pos].
  - destruct (shr_1_half mrs H) as [H1 _]. pose proof (shr_1_double mrs H) as H2.
    destruct (iter_shr_1 p _ H1) as [H3 _].
    pose proof (IH _ H1) as H4. pose proof (IH _ H3) as H5.
    replace (Z.pos p~1) with (Z.pos p + Z.pos p + 1)%Z by lia.
    rewrite !Z.pow_add_r by lia. change (2 ^ 1)%Z with 2%Z.
    assert (0 < 2 ^ Z.pos p)%Z by (apply Z.pow_pos_nonneg; lia). nia.
  - destruct (iter_shr_1 p _ H) as [H3 _].
    pose proof (IH _ H) as H4. pose proof (IH _ H3) as H5.
    replace (Z.pos p~0) with (Z.pos p + Z.pos p)%Z by lia.
    rewrite !Z.pow_add_r by lia.
    assert (0 < 2 ^ Z.pos p)%Z by (apply Z.pow_pos_nonneg; lia). nia.
  - pose proof (shr_1_double mrs H) as H2. change (2 ^ 1)%Z with 2%Z. lia.
Qed.

Lemma shr_keeps (mrs : shr_record) (e k : Z) :
  (0 <= shr_m mrs)%Z ->
  (shr_m mrs < (shr_m (fst (shr mrs e k)) + 1) * 2 ^ (snd (shr mrs e k) - e))%Z.
Proof.
  intros H. unfold shr. destruct k as [|p|p]; cbn [fst snd].
  - rewrite Z.sub_diag. simpl. lia.
  - replace (e + Z.pos p - e)%Z with (Z.pos p) by lia. now apply iter_shr_1_back.
  - rewrite Z.sub_diag. simpl. lia.
Qed.

(** The result of rounding is less than one unit in the last place below
    the number rounded. *)
Lemma binary_round_aux_below (sx : bool) (mx ex : Z) (lx : location) (m : positive) (e : Z) :
  (0 <= mx)%Z ->
  binary_round_aux prec emax sx mx ex lx = S754_finite sx m e ->
  (mx < (Zpos m + 1) * 2 ^ (e - ex))%Z.
Proof.
  intros Hmx. unfold binary_round_aux, shr_fexp.
  set (k1 := (fexp prec emax (Zdigits2 mx + ex) - ex)%Z).
  pose proof (shr_truncates (shr_record_of_loc mx lx) ex k1) as H1.
  pose proof (shr_keeps (shr_record_of_loc mx lx) ex k1) as K1.
  rewrite shr_record_of_loc_m in H1, K1. specialize (H1 Hmx). specialize (K1 Hmx).
  destruct (shr (shr_record_of_loc mx lx) ex k1) as [mrs1 e1]. cbn [fst snd] in H1, K1.
  destruct H1 as (H1a & H1b & H1c).
  pose proof (round_nearest_even_le (shr_m mrs1) (loc_of_shr_record mrs1)) as Hr.
  set (m2 := round_nearest_even (shr_m mrs1) (loc_of_shr_record mrs1)) in *.
  set (k2 := (fexp prec emax (Zdigits2 m2 + e1) - e1)%Z).
  pose proof (shr_truncates (shr_record_of_loc m2 loc_Exact) e1 k2) as H2.
  pose proof (shr_keeps (shr_record_of_loc m2 loc_Exact) e1 k2) as K2.
  rewrite shr_record_of_loc_m in H2, K2.
  specialize (H2 ltac:(lia)). specialize (K2 ltac:(lia)).
  destruct (shr (shr_record_of_loc m2 loc_Exact) e1 k2) as [mrs2 e2]. cbn [fst snd] in H2, K2.
  destruct H2 as (H2a & H2b & H2c).
  destruct (shr_m mrs2) as [|m3|m3] eqn:E3; try discriminate.
  destruct (Z.leb e2 (emax - prec)); [|discriminate].
  intros H. inversion H; subst m3 e2. clear H.
  replace (e - ex)%Z with ((e - e1) + (e1 - ex))%Z by lia.
  rewrite Z.pow_add_r by lia.
  assert (0 < 2 ^ (e - e1))%Z by (apply Z.pow_pos_nonneg; lia).
  assert (0 < 2 ^ (e1 - ex))%Z by (apply Z.pow_pos_nonneg; lia).
  nia.
Qed.

Lemma SFdiv_core_above (m1 e1 m2 e2 : Z) :
  (0 < m1 -> 0 < m2 ->
   let '(q, e', _) := SFdiv_core_binary prec emax m1 e1 m2 e2 in
   m1 * 2 ^ (e1 - e2 - e') < (q + 1) * m2)%Z.
Proof.
  intros H1 H2. unfold SFdiv_core_binary.
  set (e' := Z.min _ _).
  assert (He : (e' <= e1 - e2)%Z) by (unfold e'; lia).
  set (s := (e1 - e2 - e')%Z).
  assert (Hm : (match s with Zpos _ => Z.shiftl m1 s | Z0 => m1 | Zneg _ => 0 end
               = m1 * 2 ^ s)%Z).
  { destruct s as [|p|p] eqn:Es; [simpl; lia| |lia]. rewrite Z.shiftl_mul_pow2; lia. }
  rewrite Hm.
  pose proof (Z_div_mod (m1 * 2 ^ s) m2 ltac:(lia)) as Hd.
  destruct (Z.div_eucl (m1 * 2 ^ s) m2) as [q r].
  destruct Hd as [Hd Hr]. subst s. lia.
Qed.

End Rounding.

Lemma pow2_pos (e : Z) : 0 < 2 ^ e.
Proof. apply Qpower_0_lt. reflexivity. Qed.

Lemma pow2_add (a b : Z) : 2 ^ (a + b) == 2 ^ a * 2 ^ b.
Proof. apply Qpower_plus. discriminate. Qed.

Lemma pow2_inject (k : Z) : (0 <= k)%Z -> inject_Z (2 ^ k) == 2 ^ k.
Proof. intros H. rewrite (Zpower_Qpower 2 k H). reflexivity. Qed.

Lemma SFdiv_above (mx : positive) (ex : Z) (my : positive) (ey : Z) (m : positive) (e : Z) :
  SFdiv Binary64.prec Binary64.emax (S754_finite false mx ex) (S754_finite false my ey) = S754_finite false m e ->
  (inject_Z (Zpos m) * 2 ^ e - 2 ^ e) * (inject_Z (Zpos my) * 2 ^ ey)
  <= inject_Z (Zpos mx) * 2 ^ ex.
Proof.
  unfold SFdiv.
  pose proof (SFdiv_core_below Binary64.prec Binary64.emax (Zpos mx) ex (Zpos my) ey ltac:(lia) ltac:(lia)) as Hc.
  destruct (SFdiv_core_binary _ _ (Z.pos mx) ex (Z.pos my) ey) as [[q e'] l].
  destruct Hc as (Hq & He & Hdiv).
  intros Hr. apply (binary_round_aux_above Binary64.prec Binary64.emax) in Hr; [|exact Hq].
  destruct Hr as [He' Hm].
  assert (Hz : ((Zpos m - 1) * 2 ^ (e - e') * Zpos my <= Zpos mx * 2 ^ (ex - ey - e'))%Z).
  { assert (0 < 2 ^ (e - e'))%Z by (apply Z.pow_pos_nonneg; lia). nia. }
  rewrite Zle_Qle in Hz.
  rewrite !inject_Z_mult, !pow2_inject in Hz by lia.
  assert (E1 : 2 ^ e == 2 ^ (e - e') * 2 ^ e') by (rewrite <- pow2_add; f_equiv; lia).
  assert (E2 : 2 ^ ex == 2 ^ (ex - ey - e') * (2 ^ e' * 2 ^ ey)).
  { rewrite <- !pow2_add. f_equiv. lia. }
  pose proof (pow2_pos e') as P1. pose proof (pow2_pos ey) as P2.
  pose proof (pow2_pos (e - e')) as P3. pose proof (pow2_pos (ex - ey - e')) as P4.
  rewrite E1, E2.
  set (A := inject_Z (Z.pos m - 1)) in *. 
  assert (EA : inject_Z (Zpos m) == A + 1).
  { unfold A. replace (Z.pos m) with ((Z.pos m - 1) + 1)%Z at 1 by lia.
    rewrite inject_Z_plus. reflexivity. }
  rewrite EA.
  set (Y := inject_Z (Z.pos my)) in *. set (X := inject_Z (Z.pos mx)) in *.
  set (a := 2 ^ (e - e')) in *. set (b := 2 ^ e') in *. set (c := 2 ^ ey) in *.
  set (d := 2 ^ (ex - ey - e')) in *.
  assert (E : (A + 1) * (a * b) - a * b == A * a * b) by ring.
  assert (Hbc : 0 < b * c) by nra.
  assert (H3 : A * a * Y * (b * c) <= X * d * (b * c)) by nra.
  nra.
Qed.

Lemma binary_round_aux_sign (sx : bool) (mx ex : Z) (lx : location) (s : bool)
    (m : positive) (e : Z) :
  binary_round_aux Binary64.prec Binary64.emax sx mx ex lx = S754_finite s m e -> s = sx.
Proof.
  unfold binary_round_aux.
  destruct (shr_fexp _ _ mx ex lx) as [mrs1 e1].
  destruct (shr_fexp _ _ _ e1 loc_Exact) as [mrs2 e2].
  destruct (shr_m mrs2); try discriminate.
  destruct (Z.leb e2 _); [|discriminate].
  intros H. inversion H. reflexivity.
Qed.

Lemma value_positive_finite (f : spec_float) (q : Q) :
  Binary64.value f = Some q -> 0 < q -> exists m e, f = S754_finite false m e.
Proof.
  destruct f as [s|s| |s m e]; simpl; intros H Hq; inversion H; subst q.
  - exfalso. apply (Qlt_irrefl 0 Hq).
  - destruct s; [|eauto]. exfalso.
    pose proof (pow2_pos e) as Hp.
    assert (inject_Z (Z.neg m) < 0) by (unfold Qlt; simpl; lia).
    nra.
Qed.

Lemma quotient_above (x y : spec_float) (qx qy qs : Q) :
  Binary64.value x = Some qx -> 0 < qx -> Binary64.value y = Some qy -> 0 < qy ->
  Binary64.value (SFdiv Binary64.prec Binary64.emax x y) = Some qs ->
  (qs - Binary64.ulp (SFdiv Binary64.prec Binary64.emax x y)) * qy <= qx.
Proof.
  intros Hx Hpx Hy Hpy Hs.
  destruct (value_positive_finite x qx Hx Hpx) as (mx & ex & ->).
  destruct (value_positive_finite y qy Hy Hpy) as (my & ey & ->).
  simpl in Hx, Hy. inversion Hx; subst qx. inversion Hy; subst qy. clear Hx Hy.
  destruct (SFdiv Binary64.prec Binary64.emax (S754_finite false mx ex) (S754_finite false my ey))
    as [s|s| |s m e] eqn:Ed; simpl in Hs; inversion Hs; subst qs; clear Hs.
  - simpl. nra.
  - assert (s = false).
    { unfold SFdiv in Ed. destruct (SFdiv_core_binary _ _ _ _ _ _) as [[q e'] l].
      exact (binary_round_aux_sign _ _ _ _ _ _ _ Ed). }
    subst s. cbn [Binary64.ulp]. exact (SFdiv_above mx ex my ey m e Ed).
Qed.

Lemma SFdiv_below (mx : positive) (ex : Z) (my : positive) (ey : Z) (m : positive) (e : Z) :
  SFdiv Binary64.prec Binary64.emax (S754_finite false mx ex) (S754_finite false my ey) = S754_finite false m e ->
  inject_Z (Zpos mx) * 2 ^ ex
  < (inject_Z (Zpos m) * 2 ^ e + 2 ^ e) * (inject_Z (Zpos my) * 2 ^ ey).
Proof.
  unfold SFdiv.
  pose proof (SFdiv_core_below Binary64.prec Binary64.emax (Zpos mx) ex (Zpos my) ey ltac:(lia) ltac:(lia)) as Hc.
  pose proof (SFdiv_core_above Binary64.prec Binary64.emax (Zpos mx) ex (Zpos my) ey ltac:(lia) ltac:(lia)) as Hc'.
  destruct (SFdiv_core_binary _ _ (Z.pos mx) ex (Z.pos my) ey) as [[q e'] l].
  destruct Hc as (Hq & He & _).
  intros Hr. pose proof (binary_round_aux_above Binary64.prec Binary64.emax _ _ _ _ _ _ Hq Hr) as [He' _].
  apply (binary_round_aux_below Binary64.prec Binary64.emax) in Hr; [|exact Hq].
  assert (Hz : (Zpos mx * 2 ^ (ex - ey - e') < (Zpos m + 1) * 2 ^ (e - e') * Zpos my)%Z).
  { assert (0 < 2 ^ (e - e'))%Z by (apply Z.pow_pos_nonneg; lia). nia. }
  rewrite Zlt_Qlt in Hz.
  rewrite !inject_Z_mult, !pow2_inject in Hz by lia.
  assert (E1 : 2 ^ e == 2 ^ (e - e') * 2 ^ e') by (rewrite <- pow2_add; f_equiv; lia).
  assert (E2 : 2 ^ ex == 2 ^ (ex - ey - e') * (2 ^ e' * 2 ^ ey)).
  { rewrite <- !pow2_add. f_equiv. lia. }
  pose proof (pow2_pos e') as P1. pose proof (pow2_pos ey) as P2.
  pose proof (pow2_pos (e - e')) as P3. pose proof (pow2_pos (ex - ey - e')) as P4.
  rewrite E1, E2. rewrite inject_Z_plus in Hz. change (inject_Z 1) with 1 in Hz.
  set (A := inject_Z (Z.pos m)) in *.
  set (Y := inject_Z (Z.pos my)) in *. set (X := inject_Z (Z.pos mx)) in *.
  set (a := 2 ^ (e - e')) in *. set (b := 2 ^ e') in *. set (c := 2 ^ ey) in *.
  set (d := 2 ^ (ex - ey - e')) in *.
  assert (Hbc : 0 < b * c) by nra.
  assert (H3 : X * d * (b * c) < (A + 1) * a * Y * (b * c)) by nra.
  nra.
Qed.

Lemma quotient_below (x y : spec_float) (qx qy qs : Q) :
  Binary64.value x = Some qx -> 0 < qx -> Binary64.value y = Some qy -> 0 < qy ->
  Binary64.value (SFdiv Binary64.prec Binary64.emax x y) = Some qs -> 0 < qs ->
  qx < (qs + Binary64.ulp (SFdiv Binary64.prec Binary64.emax x y)) * qy.
Proof.
  intros Hx Hpx Hy Hpy Hs Hps.
  destruct (value_positive_finite x qx Hx Hpx) as (mx & ex & ->).
  destruct (value_positive_finite y qy Hy Hpy) as (my & ey & ->).
  destruct (value_positive_finite _ qs Hs Hps) as (m & e & Ed).
  rewrite Ed in Hs |- *.
  simpl in Hx, Hy, Hs. inversion Hx; subst qx. inversion Hy; subst qy.
  inversion Hs; subst qs. clear Hx Hy Hs.
  cbn [Binary64.ulp]. exact (SFdiv_below mx ex my ey m e Ed).
Qed.

(** ** The properties of the selector *)



(** C2, as the code has it.  With a number of milliseconds as [timeLeft]
    and [n >= 1] legal moves, lines 205-209 compute in floats: the slice is
    0.1 unless [n * 0.1 > timeLeft / 10] holds for the rounded product and
    the rounded tenth of the clock, and then it is the rounded quotient
    [(timeLeft / 10) / n].  While the slice stays 0.1 the test itself says
    that [n * 0.1] is at most the tenth of the clock.  A shrunk slice is
    within one unit in the last place of the exact quotient, so [n] slices
    add up to the tenth of the clock up to [n] such units, above or below.
    The computation never divides by zero; it fails only for an [int] too
    large for a float, with [OverflowError], and never for a float. *)
Theorem worst_slice_binary64 (x : Binary64.Number) (n : nat) (fn : spec_float) (qn : Q) :
  (0 < n)%nat ->
  Binary64.to_float (Z.of_nat n) = Returned fn ->
  Binary64.value fn = Some qn ->
  qn == inject_Z (Z.of_nat n) ->
  let searchTime := Binary64.searchTime (Binary64.ANumber x) n in
  let baseline := Binary64.literal 1 10 in
  let product := SFmul Binary64.prec Binary64.emax fn baseline in
  (forall cap, Binary64.tenth_of_clock x = Returned cap ->
     (Binary64.gt product cap = true ->
      searchTime = Returned (SFdiv Binary64.prec Binary64.emax cap fn))
     /\ (Binary64.gt product cap = false ->
         searchTime = Returned baseline
         /\ (SFcompare product cap <> None -> Binary64.le product cap = true)))
  /\ (forall cap s qcap qs,
        Binary64.tenth_of_clock x = Returned cap ->
        Binary64.gt product cap = true ->
        searchTime = Returned s ->
        Binary64.value cap = Some qcap -> 0 < qcap ->
        Binary64.value s = Some qs ->
        total (repeat qs n) <= qcap + inject_Z (Z.of_nat n) * Binary64.ulp s
        /\ (0 < qs -> qcap < total (repeat qs n) + inject_Z (Z.of_nat n) * Binary64.ulp s))
  /\ (forall e, Binary64.tenth_of_clock x = Raised e ->
        searchTime = Raised e /\ e = OverflowError
        /\ exists z, x = Binary64.Int z
                     /\ Binary64.truediv (Binary64.Int z) 1000 = Raised OverflowError)
  /\ (forall f, x = Binary64.Float f ->
        exists cap s, Binary64.tenth_of_clock x = Returned cap /\ searchTime = Returned s).
Proof.
  intros Hn Hfn Hqn Eqn.
  assert (Hz : (Z.of_nat n =? 0)%Z = false) by (apply Z.eqb_neq; lia).
  assert (E10 : exists f10, Binary64.to_float 10 = Returned f10)
    by (eexists; vm_compute; reflexivity).
  assert (E1000 : exists f1000, Binary64.to_float 1000 = Returned f1000)
    by (eexists; vm_compute; reflexivity).
  destruct E10 as [f10 E10]. destruct E1000 as [f1000 E1000].
  intros searchTime baseline product.
  assert (Hten : forall t, Binary64.truediv (Binary64.Float t) 10
                           = Returned (SFdiv Binary64.prec Binary64.emax t f10)).
  { intros t. unfold Binary64.truediv. rewrite E10. reflexivity. }
  assert (Hdiv : forall c, Binary64.truediv (Binary64.Float c) (Z.of_nat n)
                           = Returned (SFdiv Binary64.prec Binary64.emax c fn)).
  { intros c. unfold Binary64.truediv. rewrite Hfn, Hz. reflexivity. }
  assert (Hrun : forall t, Binary64.truediv x 1000 = Returned t ->
            searchTime =
            if Binary64.gt product (SFdiv Binary64.prec Binary64.emax t f10)
            then Returned (SFdiv Binary64.prec Binary64.emax
                             (SFdiv Binary64.prec Binary64.emax t f10) fn)
            else Returned baseline).
  { intros t Ht. unfold searchTime, Binary64.searchTime, Binary64.and_then, Binary64.mul_int.
    rewrite Ht, Hfn, Hten. fold baseline. fold product.
    destruct (Binary64.gt product _); [apply Hdiv|reflexivity]. }
  assert (Hrule : forall cap, Binary64.tenth_of_clock x = Returned cap ->
            Binary64.gt product cap = true ->
            searchTime = Returned (SFdiv Binary64.prec Binary64.emax cap fn)).
  { intros cap Hcap Hgt. unfold Binary64.tenth_of_clock, Binary64.and_then in Hcap.
    destruct (Binary64.truediv x 1000) as [t|e] eqn:Ht; [|discriminate].
    rewrite Hten in Hcap. inversion Hcap; subst cap. clear Hcap.
    rewrite (Hrun t eq_refl), Hgt. reflexivity. }
  split; [|split; [|split]].
  - intros cap Hcap. split; [exact (Hrule cap Hcap)|].
    unfold Binary64.tenth_of_clock, Binary64.and_then in Hcap.
    destruct (Binary64.truediv x 1000) as [t|e] eqn:Ht; [|discriminate].
    rewrite Hten in Hcap. inversion Hcap; subst cap. clear Hcap.
    rewrite (Hrun t eq_refl).
    intros Hgt. rewrite Hgt. split; [reflexivity|].
    unfold Binary64.gt in Hgt. unfold Binary64.le, SFleb. intros Hcmp.
    destruct (SFcompare product _) as [[| |]|]; congruence.
  - intros cap s qcap qs Hcap Hgt Hs Hvc Hpc Hvs.
    rewrite (Hrule cap Hcap Hgt) in Hs. inversion Hs; subst s. clear Hs.
    assert (Hpn : 0 < qn).
    { rewrite Eqn. change 0 with (inject_Z 0). rewrite <- Zlt_Qlt. lia. }
    pose proof (quotient_above cap fn qcap qn qs Hvc Hpc Hqn Hpn Hvs) as Habove.
    rewrite total_repeat. rewrite Eqn in Habove. split.
    + nra.
    + intros Hps.
      pose proof (quotient_below cap fn qcap qn qs Hvc Hpc Hqn Hpn Hvs Hps) as Hbelow.
      rewrite Eqn in Hbelow. nra.
  - intros e He. unfold Binary64.tenth_of_clock, Binary64.and_then in He.
    destruct (Binary64.truediv x 1000) as [t|e'] eqn:Ht;
      [rewrite Hten in He; discriminate|].
    inversion He; subst e'. clear He.
    assert (Hs : searchTime = Raised e).
    { unfold searchTime, Binary64.searchTime, Binary64.and_then. rewrite Ht. reflexivity. }
    split; [exact Hs|].
    destruct x as [z|f].
    + assert (He : e = OverflowError).
      { unfold Binary64.truediv in Ht. change (1000 =? 0)%Z with false in Ht.
        destruct (SFdiv _ _ _ _); inversion Ht; reflexivity. }
      subst e. split; [reflexivity|]. exists z. split; [reflexivity|exact Ht].
    + unfold Binary64.truediv in Ht. rewrite E1000 in Ht. discriminate.
  - intros f ->. unfold Binary64.tenth_of_clock, Binary64.and_then.
    assert (Ht : Binary64.truediv (Binary64.Float f) 1000
                 = Returned (SFdiv Binary64.prec Binary64.emax f f1000)).
    { unfold Binary64.truediv. rewrite E1000. reflexivity. }
    rewrite Ht, Hten. rewrite (Hrun _ Ht).
    destruct (Binary64.gt product _); eauto.
Qed.

(** Three seconds on the clock and three legal moves: the tenth of the
    clock is 0.3, the product [3 * 0.1] is 0.30000000000000004, and the slice
    is 0.3 / 3, which is 0.09999999999999999 in floats; three slices stay
    within three units in the last place of the tenth of the clock.  With a
    minute on the clock the slice is 0.1. *)
Lemma worst_slice_binary64_witness :
  (0 < 3)%nat
  /\ Binary64.to_float 3 = Returned (S754_finite false 6755399441055744 (-51))
  /\ (exists qn, Binary64.value (S754_finite false 6755399441055744 (-51)) = Some qn
                 /\ qn == 3)
  /\ Binary64.tenth_of_clock (Binary64.Int 3000)
     = Returned (S754_finite false 5404319552844595 (-54))
  /\ Binary64.searchTime (Binary64.ANumber (Binary64.Int 3000)) 3
     = Returned (S754_finite false 7205759403792793 (-56))
  /\ Binary64.searchTime (Binary64.ANumber (Binary64.Int 60000)) 3
     = Returned (S754_finite false 7205759403792794 (-56))
  /\ (forall qs, Binary64.value (S754_finite false 7205759403792793 (-56)) = Some qs ->
        total (repeat qs 3) <= (5404319552844595 # 1) * 2 ^ (-54) + 3 * 2 ^ (-56)).
Proof.
  assert (H1 : (0 < 3)%nat) by lia.
  assert (H2 : Binary64.to_float (Z.of_nat 3)
               = Returned (S754_finite false 6755399441055744 (-51)))
    by (vm_compute; reflexivity).
  assert (H3 : Binary64.value (S754_finite false 6755399441055744 (-51))
               = Some (3 * 2 ^ 51 * 2 ^ (-51)))
    by (vm_compute; reflexivity).
  assert (H4 : 3 * 2 ^ 51 * 2 ^ (-51) == inject_Z (Z.of_nat 3)) by (vm_compute; reflexivity).
  assert (H5 : Binary64.tenth_of_clock (Binary64.Int 3000)
               = Returned (S754_finite false 5404319552844595 (-54)))
    by (vm_compute; reflexivity).
  assert (H6 : Binary64.tenth_of_clock (Binary64.Int 60000)
               = Returned (S754_finite false 6755399441055744 (-50)))
    by (vm_compute; reflexivity).
  pose proof (worst_slice_binary64 (Binary64.Int 3000) 3 _ _ H1 H2 H3 H4)
    as (Hrule & Hbound & _ & _).
  assert (Hs : Binary64.searchTime (Binary64.ANumber (Binary64.Int 3000)) 3
               = Returned (S754_finite false 7205759403792793 (-56))).
  { rewrite (proj1 (Hrule _ H5)); vm_compute; reflexivity. }
  split; [exact H1|]. split; [exact H2|]. split; [eexists; split; [exact H3|exact H4]|].
  split; [exact H5|]. split; [exact Hs|]. split.
  - rewrite (proj1 (proj2 (proj1 (worst_slice_binary64 (Binary64.Int 60000) 3 _ _ H1 H2 H3 H4)
                             _ H6) ltac:(vm_compute; reflexivity)));
      vm_compute; reflexivity.
  - intros qs Hqs.
    exact (proj1 (Hbound _ _ _ qs H5 ltac:(vm_compute; reflexivity) Hs
                    ltac:(vm_compute; reflexivity) ltac:(vm_compute; reflexivity) Hqs)).
Defined.

(** C2 as stated fails.  With seven seconds on the clock and 35 legal moves
    the tenth of the clock is the float 0.7 and the slice is the float 0.02,
    a little more than a fiftieth: 35 slices add up to more than the tenth
    of the clock, in exact arithmetic (0.70000000000000001457 against
    0.69999999999999995559, and against 7/10), as the product [35 * slice]
    of Python (0.7000000000000001) and when they are added one by one in
    floats (0.7000000000000003).  Nor is the slice inversely proportional to
    the number of moves: with three seconds on the clock, 5 slices for 5
    moves add up to the tenth of the clock and 50 slices for 50 moves to
    more. *)
Lemma rounded_slices_exceed_tenth_counterexample :
  (exists s cap qs qcap product,
     Binary64.searchTime (Binary64.ANumber (Binary64.Int 7000)) 35 = Returned s
     /\ Binary64.tenth_of_clock (Binary64.Int 7000) = Returned cap
     /\ Binary64.value s = Some qs
     /\ Binary64.value cap = Some qcap
     /\ qcap < total (repeat qs 35)
     /\ 7 # 10 < total (repeat qs 35)
     /\ Binary64.mul_int 35 s = Returned product
     /\ Binary64.gt product cap = true
     /\ Binary64.gt (Binary64.running_sum (repeat s 35)) cap = true)
  /\ (exists s5 s50 cap q5 q50 qcap,
        Binary64.searchTime (Binary64.ANumber (Binary64.Int 3000)) 5 = Returned s5
        /\ Binary64.searchTime (Binary64.ANumber (Binary64.Int 3000)) 50 = Returned s50
        /\ Binary64.tenth_of_clock (Binary64.Int 3000) = Returned cap
        /\ Binary64.value s5 = Some q5
        /\ Binary64.value s50 = Some q50
        /\ Binary64.value cap = Some qcap
        /\ total (repeat q5 5) == qcap
        /\ qcap < total (repeat q50 50)
        /\ Binary64.gt (Binary64.running_sum (repeat s50 50)) cap = true).
Proof.
  split.
  - do 5 eexists.
    split; [vm_compute; reflexivity|]. split; [vm_compute; reflexivity|].
    split; [vm_compute; reflexivity|]. split; [vm_compute; reflexivity|].
    split; [vm_compute; reflexivity|]. split; [vm_compute; reflexivity|].
    split; [vm_compute; reflexivity|]. split; vm_compute; reflexivity.
  - do 6 eexists.
    split; [vm_compute; reflexivity|]. split; [vm_compute; reflexivity|].
    split; [vm_compute; reflexivity|]. split; [vm_compute; reflexivity|].
    split; [vm_compute; reflexivity|]. split; [vm_compute; reflexivity|].
    split; [vm_compute; reflexivity|]. split; vm_compute; reflexivity.
Qed.

(** C3. In the scoring loop of [WorstFish.search] each candidate is
    evaluated by the engine on the position after the move, where the
    opponent is to move, and the relative score of that position is compared
    with the running worst value: a strictly greater evaluation replaces the
    tied list by the candidate alone, an equal one appends the candidate, any
    other leaves the list as it is.  After any number of candidates the
    running worst value is therefore the greatest evaluation met, and the
    tied list holds the candidates that reach it, in the order of the
    loop. *)
Theorem worst_running_maximum `{L : ChessLib} (O : Oracle)
    (evalf : nat -> Board -> Limit -> Score) (s : Q) (ms : list Move) (w : World) :
  score_order -> engine_answers O evalf -> ms <> [] ->
  let evals := scored evalf s (board w) (List.length (analysed w)) ms in
  (exists worst,
     for_each (score_candidate O s) ms (None, []) w =
       (Returned (Some worst, map fst (filter (fun p => score_eq worst (snd p)) evals)),
        after_loop w s ms)
     /\ In worst (map snd evals)
     /\ (forall e, In e (map snd evals) -> score_lt worst e = false))
  /\ (pop_undoes_push (board w) ms ->
      forall t e, In (t, e) evals ->
        In (the_move t) ms
        /\ exists k, e = evalf k (push (board w) (the_move t)) (Limit_time (s - 0.01)))
  /\ (forall worst tied m (w0 : World),
        let e := evalf (List.length (analysed w0)) (push (board w0) m) (Limit_time (s - 0.01)) in
        let t := mkTagged m (is_capture (board w0) m) (is_check (push (board w0) m)) in
        fst (score_candidate O s m (Some worst, tied) w0) =
          Returned (if score_lt worst e then (Some e, [t])
                    else if score_eq worst e then (Some worst, tied ++ [t])
                    else (Some worst, tied))).
Proof.
  intros Hord Hans Hms evals. split; [|split].
  - assert (Hne : evals <> []).
    { intros E. apply (f_equal (@List.length _)) in E. unfold evals in E.
      rewrite scored_length in E. destruct ms; [congruence|discriminate]. }
    destruct (track_all_greatest Hord evals Hne) as (worst & Est & Hin & Hmax).
    exists worst. rewrite (for_each_run O evalf Hans). fold evals. rewrite Est.
    repeat split; assumption.
  - intros Hpop t e Hin.
    destruct (scored_undone evalf s (board w) ms _ t e Hpop Hin) as (H1 & _ & _ & H4).
    split; assumption.
  - intros worst tied m w0 e t. rewrite (score_candidate_run O evalf Hans). simpl.
    fold e. fold t. destruct (score_lt worst e); [reflexivity|].
    destruct (score_eq worst e); reflexivity.
Qed.

(** On [Mini.middle], with the engine that counts pieces, the two captures
    reach the greatest evaluation 5 and make the tied list. *)
Lemma worst_running_maximum_witness :
  @score_order Mini.lib
  /\ engine_answers Mini.material Mini.count
  /\ legal_moves Mini.middle <> []
  /\ exists w',
       for_each (score_candidate Mini.material 0.1) (legal_moves Mini.middle) (None, [])
                (Mini.start Mini.middle)
       = (Returned (Some 5%Z, [mkTagged (Mini.step 3 4) true false;
                               mkTagged (Mini.step 5 4) true false]), w').
Proof.
  assert (H1 : engine_answers Mini.material Mini.count) by (intros k b l; reflexivity).
  assert (H2 : legal_moves Mini.middle <> []) by (vm_compute; discriminate).
  split; [exact mini_score_order|]. split; [exact H1|]. split; [exact H2|].
  destruct (worst_running_maximum Mini.material Mini.count 0.1 (legal_moves Mini.middle)
              (Mini.start Mini.middle) mini_score_order H1 H2) as [(worst & Hrun & Hin & Hmax) _].
  exists (after_loop (Mini.start Mini.middle) 0.1 (legal_moves Mini.middle)).
  rewrite Hrun.
  assert (E : worst = 5%Z).
  { vm_compute in Hin. pose proof (Hmax 5%Z) as H5. 
    assert (In 5%Z (map snd (scored Mini.count 0.1 (board (Mini.start Mini.middle))
                 (List.length (analysed (Mini.start Mini.middle))) (legal_moves Mini.middle))))
      by (vm_compute; auto).
    specialize (H5 H). simpl in H5. apply Z.ltb_ge in H5.
    destruct Hin as [<-|[<-|[<-|[<-|[]]]]]; lia. }
  subst worst. reflexivity.
Defined.

(** C4.  For every candidate of the scoring loop, [isCapture] tells whether
    applying the move removes an opposing piece and [isCheck] whether the
    position that results leaves the opponent, who is then to move, in
    check.  [isCapture] is [board.is_capture(move)], the question that
    python-chess answers about a move that is about to be made, so the loop
    asks it of the board the candidate is applied to; [isCheck] is
    [board.is_check()] asked once the candidate is applied.  With a [pop]
    that undoes [push], the board the candidate is applied to is the one of
    the start of the call, for every candidate scored and for the move
    returned. *)
Theorem tags_before_and_after `{L : ChessLib} (O : Oracle)
    (evalf : nat -> Board -> Limit -> Score) (timeLeft : TimeLeft)
    (args : option (list Move)) (w : World) :
  engine_answers O evalf -> pop_undoes_push (board w) (legal_moves (board w)) ->
  (forall s m st (w0 : World), exists e,
      fst (score_candidate O s m st w0) =
      Returned (track st (mkTagged m (is_capture (board w0) m)
                                   (is_check (push (board w0) m))) e))
  /\ (forall s t e,
        In (t, e) (scored evalf s (board w) (List.length (analysed w)) (legal_moves (board w))) ->
        isCapture t = is_capture (board w) (the_move t)
        /\ isCheck t = is_check (push (board w) (the_move t)))
  /\ (forall r w',
        WorstFish_search O timeLeft args w = (Returned r, w') ->
        isCapture (move r) = is_capture (board w) (the_move (move r))
        /\ isCheck (move r) = is_check (push (board w) (the_move (move r)))).
Proof.
  intros Hans Hpop. split; [|split].
  - intros s m st w0. eexists. rewrite (score_candidate_run O evalf Hans). reflexivity.
  - intros s t e Hin.
    destruct (scored_undone evalf s (board w) _ _ t e Hpop Hin) as (_ & H2 & H3 & _). auto.
  - intros r w' Hrun. rewrite (WorstFish_search_run O evalf Hans) in Hrun.
    destruct (searchTime_of timeLeft (legal_moves (board w))) as [s|e]; [|discriminate].
    destruct (random_choice O _ _) as [[m|e] w1] eqn:Ec; [|discriminate].
    inversion Hrun; subst r w1. clear Hrun. cbn [move].
    apply random_choice_returned in Ec. destruct Ec as [Hnth _].
    apply nth_error_In, chosen_bucket_incl, tied_are_candidates in Hnth.
    destruct Hnth as [e Hin].
    destruct (scored_undone evalf s (board w) _ _ m e Hpop Hin) as (_ & H2 & H3 & _). auto.
Qed.

Lemma tags_before_and_after_witness :
  engine_answers Mini.flat Mini.level
  /\ pop_undoes_push Mini.middle (legal_moves Mini.middle)
  /\ exists r w',
       WorstFish_search Mini.flat (Clock 60000) None (Mini.start Mini.middle) = (Returned r, w')
       /\ isCapture (move r) = is_capture Mini.middle (the_move (move r))
       /\ isCheck (move r) = is_check (push Mini.middle (the_move (move r))).
Proof.
  assert (H1 : engine_answers Mini.flat Mini.level) by (intros k b l; reflexivity).
  assert (H2 : pop_undoes_push Mini.middle (legal_moves Mini.middle))
    by (intros m _; apply mini_pop_push).
  split; [exact H1|]. split; [exact H2|].
  destruct (WorstFish_search Mini.flat (Clock 60000) None (Mini.start Mini.middle))
    as [[r|e] w'] eqn:Hrun; [|vm_compute in Hrun; discriminate].
  exists r, w'. split; [reflexivity|].
  exact (proj2 (proj2 (tags_before_and_after Mini.flat Mini.level (Clock 60000) None
                         (Mini.start Mini.middle) H1 H2)) r w' Hrun).
Defined.




(** C6. [Capture] returns the legal capture at the index that
    [random._randbelow] draws for the number of legal captures, when there
    is one; when the position has no legal capture it does what [Best] does
    on the same position: the same query to the engine, the same result (a
    move or an exception) and the same world afterwards. *)
Theorem capture_falls_back_to_best `{L : ChessLib} (O : Oracle) (timeLeft : TimeLeft)
    (args : option (list Move)) (w : World) :
  let captures := filter (is_capture (board w)) (legal_moves (board w)) in
  (captures = [] ->
   TestFish_branch O Capture timeLeft args w = TestFish_branch O Best timeLeft args w)
  /\ (captures <> [] -> draws_in_range O ->
      exists m,
        nth_error captures (randbelow O (draws w) (List.length captures)) = Some m
        /\ In m (legal_moves (board w))
        /\ is_capture (board w) m = true
        /\ TestFish_branch O Capture timeLeft args w =
             (Returned (mkPlayResult (MoveObject m) None), drew w)).
Proof.
  intros captures. split.
  - apply capture_without_captures.
  - intros Hsome Hdraw.
    destruct (random_choice_total O captures w Hdraw Hsome) as (m & Hnth & Hrun).
    exists m. split; [exact Hnth|].
    pose proof (nth_error_In _ _ Hnth) as Hin. apply filter_In in Hin.
    split; [tauto|]. split; [tauto|].
    unfold TestFish_branch, bind, get_board. fold captures.
    destruct captures as [|c cs] eqn:Ec; [congruence|].
    rewrite Hrun. reflexivity.
Qed.

(** [Mini.lone] has no capture: [Capture] returns the engine's move, as
    [Best] does.  [Mini.middle] has two: [Capture] returns the first of
    them when 0 is drawn. *)
Lemma capture_falls_back_to_best_witness :
  (filter (is_capture Mini.lone) (legal_moves Mini.lone) = []
   /\ TestFish_branch Mini.material Capture (Clock 60000) None (Mini.start Mini.lone)
      = TestFish_branch Mini.material Best (Clock 60000) None (Mini.start Mini.lone)
   /\ fst (TestFish_branch Mini.material Capture (Clock 60000) None (Mini.start Mini.lone))
      = Returned (mkPlayResult (UciString "P......k w") None))
  /\ (filter (is_capture Mini.middle) (legal_moves Mini.middle) <> []
      /\ draws_in_range Mini.material
      /\ fst (TestFish_branch Mini.material Capture (Clock 60000) None (Mini.start Mini.middle))
         = Returned (mkPlayResult (MoveObject (Mini.step 3 4)) None)).
Proof.
  assert (H1 : filter (is_capture (board (Mini.start Mini.lone)))
                      (legal_moves (board (Mini.start Mini.lone))) = []) by reflexivity.
  assert (H2 : filter (is_capture (board (Mini.start Mini.middle)))
                      (legal_moves (board (Mini.start Mini.middle))) <> [])
    by (vm_compute; discriminate).
  assert (H3 : draws_in_range Mini.material) by (intros k n H; exact H).
  split.
  - split; [exact H1|].
    pose proof (proj1 (capture_falls_back_to_best Mini.material (Clock 60000) None
                         (Mini.start Mini.lone)) H1) as E.
    split; [exact E|]. rewrite E. reflexivity.
  - split; [exact H2|]. split; [exact H3|].
    destruct (proj2 (capture_falls_back_to_best Mini.material (Clock 60000) None
                       (Mini.start Mini.middle)) H2 H3) as (m & Hnth & _ & _ & Hrun).
    rewrite Hrun. vm_compute in Hnth. inversion Hnth. reflexivity.
Defined.

(** When the engine raises, the exception leaves [search] at once: the
    candidate under evaluation stays applied to the board of the caller. *)
Example engine_failure_leaves_candidate_applied :
  WorstFish_search Mini.dead (Clock 60000) None (Mini.start Mini.lone)
  = (Raised (EngineError "terminated"),
     mkWorld (push Mini.lone (Mini.step 0 1)) 0 [0.1]
             [(push Mini.lone (Mini.step 0 1), Limit_time (0.1 - 0.01))] None 0 None).
Proof. reflexivity. Qed.

(** C7, as the code has it.  One turn of the loop of [WorstFish.search]
    applies the candidate with [push] and, when the evaluation returns,
    reverts it with one [pop]; the board is touched nowhere else.  After any
    number of candidates whose evaluations returned, and when [search]
    returns, the board is therefore the one of the start with each candidate
    pushed and popped in turn.  With a [pop] that undoes [push] this is the
    board of the start itself, and each candidate was handed to the engine
    applied to that board; while the engine answers, the loop does
    return. *)
Theorem apply_revert_round_trip `{L : ChessLib} (O : Oracle) (timeLeft : TimeLeft)
    (args : option (list Move)) (w : World) :
  let legal := legal_moves (board w) in
  (forall m s st st' w',
     score_candidate O s m st w = (Returned st', w') ->
     board w' = pop (push (board w) m)
     /\ analysed w' = analysed w ++ [(push (board w) m, Limit_time (s - 0.01))])
  /\ (forall k s st st' w',
        for_each (score_candidate O s) (firstn k legal) st w = (Returned st', w') ->
        board w' = board_after (board w) (firstn k legal))
  /\ (forall r w',
        WorstFish_search O timeLeft args w = (Returned r, w') ->
        board w' = board_after (board w) legal)
  /\ (pop_undoes_push (board w) legal ->
      (forall k, board_after (board w) (firstn k legal) = board w)
      /\ board_after (board w) legal = board w
      /\ (forall r w', WorstFish_search O timeLeft args w = (Returned r, w') ->
            board w' = board w)
      /\ (forall k s,
            requests s (board w) (firstn k legal)
            = map (fun m => (push (board w) m, Limit_time (s - 0.01))) (firstn k legal)))
  /\ (forall evalf, engine_answers O evalf ->
      forall k s st, exists st' w',
        for_each (score_candidate O s) (firstn k legal) st w = (Returned st', w')
        /\ analysed w' = analysed w ++ requests s (board w) (firstn k legal)).
Proof.
  intros legal.
  split; [|split; [|split; [|split]]].
  - intros m s st st' w'.
    unfold score_candidate, evaluate, bind, get_board, board_push, board_pop, set_board,
      note_evaluate, stockfish_analyse, ret; simpl.
    destruct (analyse O (List.length (analysed w)) (push (board w) m) (Limit_time (s - 0.01)));
      intros H; inversion H; subst; simpl; auto.
  - intros k s st st' w' Hrun. exact (for_each_board_after O s _ st w st' w' Hrun).
  - intros r w' Hrun.
    destruct (WorstFish_search_returned O _ _ _ _ _ Hrun) as (s & st & w1 & Hloop & Hb & _).
    rewrite Hb. exact (for_each_board_after O s _ _ w st w1 Hloop).
  - intros Hpop.
    assert (Hv : forall k, pop_undoes_push (board w) (firstn k legal)).
    { intros k m Hin. apply Hpop. rewrite <- (firstn_skipn k legal).
      apply in_or_app. now left. }
    split; [|split; [|split]].
    + intros k. apply board_after_undone, Hv.
    + now apply board_after_undone.
    + intros r w' Hrun.
      destruct (WorstFish_search_returned O _ _ _ _ _ Hrun) as (s & st & w1 & Hloop & Hb & _).
      rewrite Hb. exact (for_each_board O s _ _ w st w1 Hpop Hloop).
    + intros k s. apply requests_undone, Hv.
  - intros evalf Hans k s st. do 2 eexists.
    rewrite (for_each_run O evalf Hans). split; reflexivity.
Qed.

Lemma apply_revert_round_trip_witness :
  pop_undoes_push Mini.middle (legal_moves Mini.middle)
  /\ engine_answers Mini.material Mini.count
  /\ (exists st' w',
        for_each (score_candidate Mini.material 0.1) (firstn 3 (legal_moves Mini.middle))
                 (None, []) (Mini.start Mini.middle) = (Returned st', w')
        /\ board w' = Mini.middle)
  /\ (exists r w',
        WorstFish_search Mini.material (Clock 60000) None (Mini.start Mini.middle)
          = (Returned r, w')
        /\ board w' = Mini.middle).
Proof.
  assert (H1 : engine_answers Mini.material Mini.count) by (intros k b l; reflexivity).
  assert (H2 : pop_undoes_push (board (Mini.start Mini.middle))
                               (legal_moves (board (Mini.start Mini.middle))))
    by (intros m _; apply mini_pop_push).
  split; [exact H2|]. split; [exact H1|].
  destruct (apply_revert_round_trip Mini.material (Clock 60000) None
              (Mini.start Mini.middle)) as (_ & Hloop & _ & Hlaw & Htotal).
  destruct (Hlaw H2) as (Hprefix & _ & Hsearch & _).
  split.
  - destruct (Htotal Mini.count H1 3%nat 0.1 (None, [])) as (st' & w' & Hrun & _).
    exists st', w'. split; [exact Hrun|].
    rewrite (Hloop _ _ _ _ _ Hrun). exact (Hprefix 3%nat).
  - destruct (WorstFish_search Mini.material (Clock 60000) None (Mini.start Mini.middle))
      as [[r|e] w'] eqn:E; [|vm_compute in E; discriminate].
    exists r, w'. split; [reflexivity|]. exact (Hsearch r w' eq_refl).
Defined.

(** C7 as stated fails.  On [Mini.lone], where [pop] undoes every [push],
    the candidate 0-1 is visited: it is applied and handed to the engine.
    The engine raises, and the call ends with the candidate still applied:
    the board is not the board of the start. *)
Lemma unreverted_candidate_counterexample :
  (forall (b : @Board Mini.lib) (m : @Move Mini.lib), pop (push b m) = b)
  /\ legal_moves Mini.lone = [Mini.step 0 1]
  /\ exists e w',
       WorstFish_search Mini.dead (Clock 60000) None (Mini.start Mini.lone) = (Raised e, w')
       /\ analysed w' = [(push Mini.lone (Mini.step 0 1), Limit_time (0.1 - 0.01))]
       /\ board w' = push Mini.lone (Mini.step 0 1)
       /\ board w' <> board (Mini.start Mini.lone).
Proof.
  split; [exact mini_pop_push|]. split; [reflexivity|].
  do 2 eexists. split; [vm_compute; reflexivity|].
  split; [vm_compute; reflexivity|]. split; [vm_compute; reflexivity|].
  vm_compute. discriminate.
Qed.




(** C9, as the code has it.  [evaluate] forwards every time slice, of any
    sign, to the engine as the limit [timeLimit - 0.01]: nothing is clamped
    and nothing is rejected, and the call returns or raises what the engine
    does.  While the engine answers, the loop of [WorstFish.search] goes
    through all the candidates with any slice, sending that limit with
    every request, and [WorstFish.search] never fails with
    [TimeBudgetExhausted]. *)
Theorem evaluate_forwards_any_slice `{L : ChessLib} (O : Oracle)
    (evalf : nat -> Board -> Limit -> Score) (args : option (list Move)) (w : World) :
  engine_answers O evalf ->
  (forall timeLimit (w0 : World),
     evaluate O timeLimit w0 =
     (analyse O (List.length (analysed w0)) (board w0) (Limit_time (timeLimit - 0.01)),
      mkWorld (board w0) (draws w0) (evaluate_calls w0 ++ [timeLimit])
              (analysed w0 ++ [(board w0, Limit_time (timeLimit - 0.01))])
              (sf_position w0) (sf_asked w0) (move_type_txt w0)))
  /\ (forall s st, exists st' w' sent,
        for_each (score_candidate O s) (legal_moves (board w)) st w = (Returned st', w')
        /\ evaluate_calls w' = evaluate_calls w ++ repeat s (List.length (legal_moves (board w)))
        /\ analysed w' = analysed w ++ sent
        /\ List.length sent = List.length (legal_moves (board w))
        /\ forall p, In p sent -> snd p = Limit_time (s - 0.01))
  /\ (forall timeLeft out w',
        WorstFish_search O timeLeft args w = (out, w') -> out <> Raised TimeBudgetExhausted).
Proof.
  intros Hans. split; [|split].
  - intros timeLimit w0. reflexivity.
  - intros s st. do 2 eexists. exists (requests s (board w) (legal_moves (board w))).
    rewrite (for_each_run O evalf Hans).
    split; [reflexivity|]. split; [reflexivity|]. split; [reflexivity|].
    split; [apply requests_length|]. intros p Hin. exact (requests_time s _ _ p Hin).
  - intros timeLeft out w' Hrun. rewrite (WorstFish_search_run O evalf Hans) in Hrun.
    destruct (searchTime_of timeLeft (legal_moves (board w))) as [s|e] eqn:Es.
    + destruct (random_choice O _ _) as [[m|e] w1] eqn:Ec.
      * inversion Hrun. discriminate.
      * apply random_choice_raised in Ec. inversion Hrun; subst. discriminate.
    + inversion Hrun; subst. destruct timeLeft as [l|ms']; [discriminate|].
      unfold searchTime_of, py_div in Es.
      destruct (Qgtb _ _); [|discriminate].
      destruct (Qeq_bool _ _); inversion Es. discriminate.
Qed.

(** On [Mini.middle] the loop goes through the four candidates with the
    slice -1, and each request carries the limit [-1 - 0.01]. *)
Lemma evaluate_forwards_any_slice_witness :
  engine_answers Mini.flat Mini.level
  /\ exists st' w',
       for_each (score_candidate Mini.flat (-1)) (legal_moves Mini.middle) (None, [])
                (Mini.start Mini.middle) = (Returned st', w')
       /\ evaluate_calls w' = [-1; -1; -1; -1]
       /\ map snd (analysed w') = repeat (Limit_time (-1 - 0.01)) 4.
Proof.
  assert (H1 : engine_answers Mini.flat Mini.level) by (intros k b l; reflexivity).
  split; [exact H1|].
  destruct (proj1 (proj2 (evaluate_forwards_any_slice Mini.flat Mini.level None
                            (Mini.start Mini.middle) H1)) (-1) (None, []))
    as (st' & w' & sent & Hrun & Hcalls & Hsent & _ & _).
  exists st', w'. split; [exact Hrun|].
  vm_compute in Hrun. inversion Hrun; subst. split; reflexivity.
Defined.

(** C9 as stated fails.  With an empty clock on [Mini.lone], [evaluate] is
    called with the slice 0 and hands the limit -0.01 to the engine, and
    [search] returns the move 0-1 instead of failing with
    [TimeBudgetExhausted]. *)
Lemma non_positive_slice_counterexample :
  exists r w' s b t,
    WorstFish_search Mini.flat (Clock 0) None (Mini.start Mini.lone) = (Returned r, w')
    /\ the_move (move r) = Mini.step 0 1
    /\ evaluate_calls w' = [s] /\ s <= 0
    /\ analysed w' = [(b, Limit_time t)] /\ t < 0 /\ t == - 0.01
    /\ snd (evaluate Mini.flat 0 (Mini.start Mini.lone))
       = mkWorld Mini.lone 0 [0] [(Mini.lone, Limit_time (0 - 0.01))] None 0 None.
Proof.
  do 5 eexists. split; [vm_compute; reflexivity|].
  split; [reflexivity|]. split; [reflexivity|]. split; [vm_compute; discriminate|].
  split; [reflexivity|]. split; [vm_compute; reflexivity|].
  split; [vm_compute; reflexivity|]. reflexivity.
Qed.

(** C10. A tied move that is both a capture and a check goes to
    [worstCaptures], and to neither of the other two lists: the test of
    [isCapture] comes first.  When [WorstFish.search] returns such a move,
    every move of the tied list [worstMoves] is a capture. *)
Theorem capture_precedes_check `{L : ChessLib} (O : Oracle) (timeLeft : TimeLeft)
    (args : option (list Move)) (w : World) :
  (forall tied t, In t tied -> isCapture t = true -> isCheck t = true ->
     let '(worstCaptures, worstChecks, worstOther) := partition_worst tied in
     In t worstCaptures /\ ~ In t worstChecks /\ ~ In t worstOther)
  /\ (forall r w',
        WorstFish_search O timeLeft args w = (Returned r, w') ->
        isCapture (move r) = true ->
        exists s worstMoves w1,
          for_each (score_candidate O s) (legal_moves (board w)) (None, []) w
            = (Returned worstMoves, w1)
          /\ In (move r) (snd worstMoves)
          /\ forall t, In t (snd worstMoves) -> isCapture t = true).
Proof.
  split.
  - intros tied t Hin Hcap Hchk. rewrite partition_worst_filters.
    split; [apply filter_In; auto|].
    split; intros H; apply filter_In in H; destruct H as [_ H];
      unfold plain_check, quiet in H; rewrite Hcap in H; discriminate.
  - intros r w' Hrun Hcap.
    destruct (WorstFish_search_returned O _ _ _ _ _ Hrun) as (s & st & w1 & Hloop & _ & Hin).
    exists s, st, w1. split; [exact Hloop|].
    split; [exact (chosen_bucket_incl _ _ Hin)|].
    destruct (chosen_bucket_cases (snd st)) as [[_ E]|[[_ [_ E]]|[Eq [Ek _]]]].
    + rewrite E in Hin. apply filter_In in Hin. destruct Hin as [_ H].
      unfold quiet in H. rewrite Hcap in H. discriminate.
    + rewrite E in Hin. apply filter_In in Hin. destruct Hin as [_ H].
      unfold plain_check in H. rewrite Hcap in H. discriminate.
    + intros t Ht. destruct (class_of t) as [H|[H|H]]; [| |exact H].
      * rewrite (filter_nil_none quiet _ t Eq Ht) in H. discriminate.
      * rewrite (filter_nil_none plain_check _ t Ek Ht) in H. discriminate.
Qed.

(** On [Mini.corner] the step 5-6 takes the pawn and gives check.  With the
    engine that counts pieces it is the only tied move, and it is returned;
    with the engine that scores every position alike it ties with the quiet
    step 5-4, which is returned. *)
Lemma capture_precedes_check_witness :
  (exists r w',
     WorstFish_search Mini.material (Clock 60000) None (Mini.start Mini.corner) = (Returned r, w')
     /\ move r = mkTagged (Mini.step 5 6) true true
     /\ exists s worstMoves w1,
          for_each (score_candidate Mini.material s) (legal_moves Mini.corner) (None, [])
                   (Mini.start Mini.corner) = (Returned worstMoves, w1)
          /\ forall t, In t (snd worstMoves) -> isCapture t = true)
  /\ fst (WorstFish_search Mini.flat (Clock 60000) None (Mini.start Mini.corner))
     = Returned (mkPlayResult (mkTagged (Mini.step 5 4) false false) None).
Proof.
  split; [|reflexivity].
  destruct (WorstFish_search Mini.material (Clock 60000) None (Mini.start Mini.corner))
    as [[r|e] w'] eqn:Hrun; [|vm_compute in Hrun; discriminate].
  assert (Hr : move r = mkTagged (Mini.step 5 6) true true)
    by (vm_compute in Hrun; inversion Hrun; reflexivity).
  exists r, w'. split; [reflexivity|]. split; [exact Hr|].
  destruct (proj2 (capture_precedes_check Mini.material (Clock 60000) None
                     (Mini.start Mini.corner)) r w' Hrun)
    as (s & st & w1 & Hloop & _ & Hall); [rewrite Hr; reflexivity|].
  exists s, st, w1. split; [exact Hloop|exact Hall].
Defined.


(** ** Facts about the order of strings and the sort *)

Lemma string_compare_refl (s : string) : String.compare s s = Eq.
Proof.
  induction s as [|c s IH]; simpl; [reflexivity|].
  unfold Ascii.compare. rewrite N.compare_refl. exact IH.
Qed.

Lemma string_leb_refl (s : string) : String.leb s s = true.
Proof. unfold String.leb. now rewrite string_compare_refl. Qed.

Lemma string_compare_lt_trans : forall s1 s2 s3 : string,
  String.compare s1 s2 = Lt -> String.compare s2 s3 = Lt -> String.compare s1 s3 = Lt.
Proof.
  induction s1 as [|c1 s1 IH]; intros [|c2 s2] [|c3 s3]; simpl; try congruence.
  unfold Ascii.compare.
  destruct (N.compare_spec (N_of_ascii c1) (N_of_ascii c2)) as [E12|L12|G12];
    destruct (N.compare_spec (N_of_ascii c2) (N_of_ascii c3)) as [E23|L23|G23];
    try congruence; intros H1 H2.
  - rewrite E12, E23, N.compare_refl. eapply IH; eassumption.
  - assert (Hlt : (N_of_ascii c1 < N_of_ascii c3)%N) by lia.
    apply N.compare_lt_iff in Hlt. now rewrite Hlt.
  - assert (Hlt : (N_of_ascii c1 < N_of_ascii c3)%N) by lia.
    apply N.compare_lt_iff in Hlt. now rewrite Hlt.
  - assert (Hlt : (N_of_ascii c1 < N_of_ascii c3)%N) by lia.
    apply N.compare_lt_iff in Hlt. now rewrite Hlt.
Qed.

Lemma string_leb_trans (s1 s2 s3 : string) :
  String.leb s1 s2 = true -> String.leb s2 s3 = true -> String.leb s1 s3 = true.
Proof.
  unfold String.leb.
  destruct (String.compare s1 s2) eqn:E12; try discriminate;
    destruct (String.compare s2 s3) eqn:E23; try discriminate; intros _ _.
  - apply String.compare_eq_iff in E12, E23. subst. now rewrite string_compare_refl.
  - apply String.compare_eq_iff in E12. subst. now rewrite E23.
  - apply String.compare_eq_iff in E23. subst. now rewrite E12.
  - now rewrite (string_compare_lt_trans _ _ _ E12 E23).
Qed.

Lemma string_leb_false (s1 s2 : string) :
  String.leb s1 s2 = false -> String.leb s2 s1 = true.
Proof. intros H. destruct (String.leb_total s1 s2) as [E|E]; congruence. Qed.

Section Sorting.
Context {A : Type} (key : A -> string).

Lemma insert_by_perm (x : A) (l : list A) : Permutation (insert_by key x l) (x :: l).
Proof.
  induction l as [|y l IH]; simpl; [reflexivity|].
  destruct (String.leb (key x) (key y)); [reflexivity|].
  rewrite IH. apply perm_swap.
Qed.

Lemma sort_by_perm (l : list A) : Permutation (sort_by key l) l.
Proof.
  induction l as [|x l IH]; simpl; [reflexivity|].
  rewrite insert_by_perm. now constructor.
Qed.



(** The first item of the sorted list is the first item of the list that
    has the least key. *)
Lemma sort_by_first (l : list A) (m : A) :
  first_item (sort_by key l) = Returned m ->
  exists pre post,
    l = pre ++ m :: post
    /\ (forall x, In x pre -> String.leb (key x) (key m) = false)
    /\ (forall x, In x post -> String.leb (key m) (key x) = true).
Proof.
  revert m. induction l as [|x l IH]; intros m; simpl; [discriminate|].
  destruct (sort_by key l) as [|y rest] eqn:Es.
  - assert (l = []) as ->.
    { apply Permutation_nil. rewrite <- Es. apply sort_by_perm. }
    simpl. intros H. inversion H; subst. exists [], []. simpl. intuition.
  - destruct (IH y eq_refl) as (pre & post & El & Hpre & Hpost).
    simpl. destruct (String.leb (key x) (key y)) eqn:E; simpl; intros H; inversion H; subst m.
    + exists [], l. split; [reflexivity|]. split; [intros ? []|].
      intros z Hz. rewrite El in Hz. apply in_app_or in Hz.
      destruct Hz as [Hz|[<-|Hz]]; [|exact E|].
      * eapply string_leb_trans; [exact E|]. apply string_leb_false. now apply Hpre.
      * eapply string_leb_trans; [exact E|]. now apply Hpost.
    + exists (x :: pre), post. split; [now rewrite El|]. split; [|exact Hpost].
      intros z [<-|Hz]; [exact E|now apply Hpre].
Qed.

Lemma sort_by_first_empty (l : list A) :
  first_item (sort_by key l) = Raised IndexError <-> l = [].
Proof.
  split.
  - intros H. destruct (sort_by key l) as [|y rest] eqn:Es; [|discriminate].
    apply Permutation_nil. rewrite <- Es. apply sort_by_perm.
  - intros ->. reflexivity.
Qed.

Lemma sort_by_first_returns (l : list A) :
  l <> [] -> exists m, first_item (sort_by key l) = Returned m.
Proof.
  intros H. destruct (sort_by key l) as [|y rest] eqn:Es; [|simpl; eauto].
  exfalso. apply H. apply Permutation_nil. rewrite <- Es. apply sort_by_perm.
Qed.

(** The first item is a least one, and is in the list. *)
Lemma sort_by_first_least (l : list A) (m : A) :
  first_item (sort_by key l) = Returned m ->
  In m l /\ forall x, In x l -> String.leb (key m) (key x) = true.
Proof.
  intros H. destruct (sort_by_first l m H) as (pre & post & -> & Hpre & Hpost).
  split; [apply in_or_app; right; now left|].
  intros x Hx. apply in_app_or in Hx. destruct Hx as [Hx|[<-|Hx]].
  - apply string_leb_false. now apply Hpre.
  - apply string_leb_refl.
  - now apply Hpost.
Qed.

Lemma key_injective (l : list A) (a b : A) :
  NoDup (map key l) -> In a l -> In b l -> key a = key b -> a = b.
Proof.
  induction l as [|x l IH]; simpl; intros Hnd Ha Hb E; [destruct Ha|].
  inversion Hnd as [|? ? Hx Hl]; subst.
  destruct Ha as [<-|Ha], Hb as [<-|Hb]; auto.
  - exfalso. apply Hx. rewrite E. now apply in_map.
  - exfalso. apply Hx. rewrite <- E. now apply in_map.
Qed.

(** With keys that differ, the first item does not depend on the order of
    the list. *)
Lemma sort_by_first_permutation (l1 l2 : list A) :
  Permutation l1 l2 -> NoDup (map key l1) ->
  first_item (sort_by key l1) = first_item (sort_by key l2).
Proof.
  intros Hp Hnd.
  destruct l1 as [|a1 l1'] eqn:E1.
  - apply Permutation_nil in Hp. now subst.
  - rewrite <- E1 in *.
    assert (H1 : l1 <> []) by (rewrite E1; discriminate).
    assert (H2 : l2 <> []).
    { intros ->. apply Permutation_sym, Permutation_nil in Hp. congruence. }
    destruct (sort_by_first_returns l1 H1) as [m1 Hm1].
    destruct (sort_by_first_returns l2 H2) as [m2 Hm2].
    rewrite Hm1, Hm2. f_equal.
    destruct (sort_by_first_least l1 m1 Hm1) as [Hin1 Hle1].
    destruct (sort_by_first_least l2 m2 Hm2) as [Hin2 Hle2].
    assert (Hin2' : In m2 l1) by (eapply Permutation_in; [symmetry|]; eassumption).
    assert (Hin1' : In m1 l2) by (eapply Permutation_in; eassumption).
    apply (key_injective l1); auto.
    apply String.leb_antisym; auto.
Qed.

End Sorting.

Lemma string_leb_false_ltb (s1 s2 : string) :
  String.leb s1 s2 = false -> String.ltb s2 s1 = true.
Proof.
  unfold String.leb, String.ltb. rewrite (String.compare_antisym s2 s1).
  destruct (String.compare s1 s2); simpl; congruence.
Qed.

Lemma sort_by_first_least_stable {A : Type} (key : A -> string) (l : list A) (m : A) :
  first_item (sort_by key l) = Returned m -> first_least key l m.
Proof.
  intros H. destruct (sort_by_first key l m H) as (pre & post & El & Hpre & Hpost).
  exists pre, post. split; [exact El|]. split; [|exact Hpost].
  intros x Hx. apply string_leb_false_ltb. now apply Hpre.
Qed.

(** ** The properties of the example engines *)

(** X1. [FirstMove.search] returns the legal move whose UCI string is least,
    and [Alphabetical.search] the one whose SAN string is least; among moves
    with the same string the one enumerated first.  Both fail with
    [IndexError] when there is no legal move, and leave the world as it
    is. *)
Theorem sorted_engines_pick_least `{L : ChessLib} `{N : !ChessNames}
    (args : option (list Move)) (w : World) :
  (legal_moves (board w) = [] ->
   FirstMove_search args w = (Raised IndexError, w)
   /\ Alphabetical_search args w = (Raised IndexError, w))
  /\ (legal_moves (board w) <> [] ->
      exists m1 m2,
        FirstMove_search args w = (Returned (mkPlayResult m1 None), w)
        /\ Alphabetical_search args w = (Returned (mkPlayResult m2 None), w)
        /\ first_least uci (legal_moves (board w)) m1
        /\ first_least (san (board w)) (legal_moves (board w)) m2).
Proof.
  split.
  - intros E. unfold FirstMove_search, Alphabetical_search, bind, get_board, lift.
    rewrite E. split; reflexivity.
  - intros Hl.
    destruct (sort_by_first_returns uci _ Hl) as [m1 H1].
    destruct (sort_by_first_returns (san (board w)) _ Hl) as [m2 H2].
    exists m1, m2.
    unfold FirstMove_search, Alphabetical_search, bind, get_board, lift.
    rewrite H1, H2. repeat split; try reflexivity.
    + now apply sort_by_first_least_stable.
    + now apply sort_by_first_least_stable.
Qed.

(** On [MiniNames.spread] the least UCI string is that of 0-1, but its SAN
    string starts with the mark of a capture and the least SAN string is
    that of 5-4. *)
Lemma sorted_engines_pick_least_witness :
  legal_moves (board (Mini.start MiniNames.spread)) <> []
  /\ legal_moves (board (Mini.start Mini.bare)) = []
  /\ fst (FirstMove_search (N := MiniNames.names) None (Mini.start MiniNames.spread))
     = Returned (mkPlayResult (Mini.step 0 1) None)
  /\ fst (Alphabetical_search (N := MiniNames.names) None (Mini.start MiniNames.spread))
     = Returned (mkPlayResult (Mini.step 5 4) None)
  /\ FirstMove_search (N := MiniNames.names) None (Mini.start Mini.bare) = (Raised IndexError, Mini.start Mini.bare).
Proof.
  assert (H1 : legal_moves (board (Mini.start MiniNames.spread)) <> [])
    by (vm_compute; discriminate).
  assert (H2 : legal_moves (board (Mini.start Mini.bare)) = []) by reflexivity.
  split; [exact H1|]. split; [exact H2|].
  destruct (proj2 (sorted_engines_pick_least (N := MiniNames.names) None (Mini.start MiniNames.spread)) H1)
    as (m1 & m2 & E1 & E2 & _ & _).
  split; [reflexivity|]. split; [reflexivity|].
  exact (proj1 (proj1 (sorted_engines_pick_least (N := MiniNames.names) None (Mini.start Mini.bare)) H2)).
Defined.

(** X2. The move of [FirstMove.search] depends on the set of legal moves
    only: when the UCI strings of the legal moves differ from one another,
    two boards that enumerate the same legal moves in different orders get
    the same move. *)
Theorem FirstMove_ignores_enumeration_order `{L : ChessLib} `{N : !ChessNames}
    (args : option (list Move)) (w1 w2 : World) :
  Permutation (legal_moves (board w1)) (legal_moves (board w2)) ->
  NoDup (map uci (legal_moves (board w1))) ->
  fst (FirstMove_search args w1) = fst (FirstMove_search args w2).
Proof.
  intros Hp Hnd. unfold FirstMove_search, bind, get_board, lift.
  rewrite (sort_by_first_permutation uci _ _ Hp Hnd).
  destruct (first_item (sort_by uci (legal_moves (board w2)))); reflexivity.
Qed.

Lemma FirstMove_ignores_enumeration_order_witness :
  Permutation (legal_moves (board (Mini.start Mini.middle)))
              (legal_moves (board (Mini.start MiniNames.middle_reordered)))
  /\ NoDup (map (uci (ChessNames := MiniNames.names)) (legal_moves (board (Mini.start Mini.middle))))
  /\ legal_moves Mini.middle <> legal_moves MiniNames.middle_reordered
  /\ fst (FirstMove_search (N := MiniNames.names) None (Mini.start Mini.middle))
     = fst (FirstMove_search (N := MiniNames.names) None (Mini.start MiniNames.middle_reordered)).
Proof.
  assert (H1 : Permutation (legal_moves (board (Mini.start Mini.middle)))
                 (legal_moves (board (Mini.start MiniNames.middle_reordered)))).
  { vm_compute.
    apply (Permutation_app_comm [Mini.mkMove 3 2; Mini.mkMove 3 4]
                                [Mini.mkMove 5 4; Mini.mkMove 5 6]). }
  assert (H2 : NoDup (map (uci (ChessNames := MiniNames.names)) (legal_moves (board (Mini.start Mini.middle))))).
  { vm_compute. repeat constructor; simpl; intuition discriminate. }
  split; [exact H1|]. split; [exact H2|]. split; [vm_compute; discriminate|].
  exact (FirstMove_ignores_enumeration_order (N := MiniNames.names) None _ _ H1 H2).
Defined.

(** X3. [RandomMove.search] returns the legal move at the index that
    [random._randbelow] draws for the number of legal moves, and fails with
    [IndexError] when there is none; it sends nothing to an engine and does
    not touch the board. *)
Theorem RandomMove_returns_legal `{L : ChessLib} (O : Oracle)
    (args : option (list Move)) (w : World) :
  (legal_moves (board w) = [] -> RandomMove_search O args w = (Raised IndexError, w))
  /\ (legal_moves (board w) <> [] -> draws_in_range O ->
      exists m,
        nth_error (legal_moves (board w))
                  (randbelow O (draws w) (List.length (legal_moves (board w)))) = Some m
        /\ In m (legal_moves (board w))
        /\ RandomMove_search O args w = (Returned (mkPlayResult m None), drew w))
  /\ (forall out w', RandomMove_search O args w = (out, w') ->
        board w' = board w /\ analysed w' = analysed w
        /\ evaluate_calls w' = evaluate_calls w /\ sf_asked w' = sf_asked w).
Proof.
  split; [|split].
  - intros E. unfold RandomMove_search, bind, get_board. rewrite E. reflexivity.
  - intros Hl Hd. destruct (random_choice_total O _ w Hd Hl) as (m & Hnth & Hrun).
    exists m. split; [exact Hnth|]. split; [eapply nth_error_In; eassumption|].
    unfold RandomMove_search, bind, get_board. rewrite Hrun. reflexivity.
  - intros out w'. unfold RandomMove_search, bind, get_board, random_choice.
    destruct (legal_moves (board w)) as [|m ms]; [intros H; inversion H; subst; auto|].
    destruct (nth_error _ _); intros H; inversion H; subst; simpl; auto.
Qed.

Lemma RandomMove_returns_legal_witness :
  legal_moves (board (Mini.start Mini.middle)) <> []
  /\ draws_in_range Mini.flat
  /\ legal_moves (board (Mini.start Mini.bare)) = []
  /\ fst (RandomMove_search Mini.flat None (Mini.start Mini.middle))
     = Returned (mkPlayResult (Mini.step 3 2) None)
  /\ fst (RandomMove_search Mini.flat None (Mini.start Mini.bare)) = Raised IndexError.
Proof.
  assert (H1 : legal_moves (board (Mini.start Mini.middle)) <> [])
    by (vm_compute; discriminate).
  assert (H2 : draws_in_range Mini.flat) by (intros k n H; exact H).
  assert (H3 : legal_moves (board (Mini.start Mini.bare)) = []) by reflexivity.
  split; [exact H1|]. split; [exact H2|]. split; [exact H3|].
  destruct (proj1 (proj2 (RandomMove_returns_legal Mini.flat None (Mini.start Mini.middle)))
              H1 H2) as (m & Hnth & _ & Hrun).
  split.
  - rewrite Hrun. vm_compute in Hnth. inversion Hnth. reflexivity.
  - rewrite (proj1 (RandomMove_returns_legal Mini.flat None (Mini.start Mini.bare)) H3).
    reflexivity.
Defined.

Lemma combo_threshold (t i : Z) :
  Qgtb (inject_Z t / 60 + inject_Z i) 10 = true <-> (600 < t + 60 * i)%Z.
Proof.
  rewrite Qgtb_true.
  assert (E : inject_Z t / 60 + inject_Z i == (inject_Z t + 60 * inject_Z i) * (1 # 60))
    by field.
  rewrite E. rewrite (Zlt_Qlt 600 (t + 60 * i)), inject_Z_plus, inject_Z_mult.
  change (inject_Z 600) with 600. change (inject_Z 60) with 60.
  split; intros H; lra.
Qed.

Lemma combo_threshold_not (t i : Z) :
  Qgtb (inject_Z t / 60 + inject_Z i) 10 = false <-> (t + 60 * i <= 600)%Z.
Proof.
  pose proof (combo_threshold t i) as H.
  destruct (Qgtb (inject_Z t / 60 + inject_Z i) 10); split; intros H'.
  - discriminate.
  - assert (600 < t + 60 * i)%Z by (apply H; reflexivity). lia.
  - destruct (Z_lt_le_dec 600 (t + 60 * i)) as [Hlt|Hle]; [|exact Hle].
    apply H in Hlt. discriminate.
  - reflexivity.
Qed.

(** X4. [ComboEngine.search] chooses among [root_moves] when the caller
    gives a list and among the legal moves otherwise, without comparing the
    two.  For a time and an increment of at most [10^9] in absolute value:
    with [my_time + 60 * my_inc > 600] it returns the move at the index that
    [random._randbelow] draws; otherwise it returns the move with the least
    UCI string, the first of them in the list; and it fails with
    [IndexError] when there is nothing to choose from.  Whenever it returns,
    the move is one of the list it chose from, and [draw_offered] is passed
    on to the result. *)
Theorem ComboEngine_selection `{L : ChessLib} `{N : !ChessNames} (O : Oracle)
    (time_limit : TimeControl) (ponder draw : bool) (root_moves : option (list Move))
    (w : World) :
  let my_time := fst (my_time_inc (board w) time_limit) in
  let my_inc := snd (my_time_inc (board w) time_limit) in
  let possible_moves :=
    match root_moves with Some l => l | None => legal_moves (board w) end in
  (possible_moves = [] -> in_clock_range my_time -> in_clock_range my_inc ->
   ComboEngine_search O time_limit ponder draw root_moves w = (Raised IndexError, w))
  /\ (possible_moves <> [] -> (600 < my_time + 60 * my_inc)%Z ->
      in_clock_range my_time -> in_clock_range my_inc -> draws_in_range O ->
      exists m,
        nth_error possible_moves (randbelow O (draws w) (List.length possible_moves)) = Some m
        /\ ComboEngine_search O time_limit ponder draw root_moves w
           = (Returned (mkComboResult (mkPlayResult m None) draw root_moves), drew w))
  /\ (possible_moves <> [] -> (my_time + 60 * my_inc <= 600)%Z ->
      in_clock_range my_time -> in_clock_range my_inc ->
      exists m,
        first_least uci possible_moves m
        /\ ComboEngine_search O time_limit ponder draw root_moves w
           = (Returned (mkComboResult (mkPlayResult m None) draw
                          (match root_moves with
                           | Some _ => Some (sort_by uci possible_moves)
                           | None => None
                           end)), w))
  /\ (forall r w',
        ComboEngine_search O time_limit ponder draw root_moves w = (Returned r, w') ->
        In (move (played r)) possible_moves /\ draw_offered r = draw).
Proof.
  intros my_time my_inc possible_moves.
  assert (Hsearch : ComboEngine_search O time_limit ponder draw root_moves w =
    if Qgtb (inject_Z my_time / 60 + inject_Z my_inc) 10
    then match random_choice O possible_moves w with
         | (Returned m, w') =>
             (Returned (mkComboResult (mkPlayResult m None) draw root_moves), w')
         | (Raised e, w') => (Raised e, w')
         end
    else match first_item (sort_by uci possible_moves) with
         | Returned m =>
             (Returned (mkComboResult (mkPlayResult m None) draw
                          (match root_moves with
                           | Some _ => Some (sort_by uci possible_moves)
                           | None => None
                           end)), w)
         | Raised e => (Raised e, w)
         end).
  { unfold ComboEngine_search, bind, get_board, lift, my_time, my_inc, possible_moves.
    destruct (my_time_inc (board w) time_limit) as [t i]. cbn [fst snd].
    destruct (Qgtb (inject_Z t / 60 + inject_Z i) 10); [reflexivity|].
    destruct (first_item _); reflexivity. }
  split; [|split; [|split]].
  - intros E _ _. rewrite Hsearch, E.
    destruct (Qgtb _ _); reflexivity.
  - intros Hne Hgt _ _ Hd. apply combo_threshold in Hgt. rewrite Hsearch, Hgt.
    destruct (random_choice_total O _ w Hd Hne) as (m & Hnth & Hrun).
    exists m. split; [exact Hnth|]. rewrite Hrun. reflexivity.
  - intros Hne Hle _ _. apply combo_threshold_not in Hle. rewrite Hsearch, Hle.
    destruct (sort_by_first_returns uci _ Hne) as [m Hm].
    exists m. split; [now apply sort_by_first_least_stable|]. rewrite Hm. reflexivity.
  - intros r w'. rewrite Hsearch. destruct (Qgtb _ _).
    + destruct (random_choice O possible_moves w) as [[m|e] w1] eqn:Ec; [|discriminate].
      intros H. inversion H; subst. cbn [played move draw_offered]. split; [|reflexivity].
      apply random_choice_returned in Ec. destruct Ec as [Hnth _].
      eapply nth_error_In; eassumption.
    + destruct (first_item (sort_by uci possible_moves)) as [m|e] eqn:Ef; [|discriminate].
      intros H. inversion H; subst. cbn [played move draw_offered]. split; [|reflexivity].
      now apply (sort_by_first_least uci).
Qed.

(** With eleven minutes as a fixed time the move is drawn; with ten it is
    the least one of the root moves, although 5-6 and 3-2 are not all the
    legal moves. *)
Lemma ComboEngine_selection_witness :
  draws_in_range Mini.flat
  /\ in_clock_range 660 /\ in_clock_range 600 /\ in_clock_range 0
  /\ fst (ComboEngine_search (N := MiniNames.names) Mini.flat
            (mkTimeControl (PyInt 660) PyNone PyNone PyNone PyNone) false true
            (Some [Mini.step 5 6; Mini.step 3 2]) (Mini.start Mini.middle))
     = Returned (mkComboResult (mkPlayResult (Mini.step 5 6) None) true
                   (Some [Mini.step 5 6; Mini.step 3 2]))
  /\ fst (ComboEngine_search (N := MiniNames.names) Mini.flat
            (mkTimeControl (PyInt 600) PyNone PyNone PyNone PyNone) false true
            (Some [Mini.step 5 6; Mini.step 3 2]) (Mini.start Mini.middle))
     = Returned (mkComboResult (mkPlayResult (Mini.step 3 2) None) true
                   (Some [Mini.step 3 2; Mini.step 5 6])).
Proof.
  assert (Hd : draws_in_range Mini.flat) by (intros k n H; exact H).
  split; [exact Hd|].
  split; [vm_compute; discriminate|]. split; [vm_compute; discriminate|].
  split; [vm_compute; discriminate|]. split.
  - destruct (proj1 (proj2 (ComboEngine_selection (N := MiniNames.names) Mini.flat
                (mkTimeControl (PyInt 660) PyNone PyNone PyNone PyNone) false true
                (Some [Mini.step 5 6; Mini.step 3 2]) (Mini.start Mini.middle))))
      as (m & Hnth & Hrun);
      [discriminate|vm_compute; reflexivity|vm_compute; discriminate
      |vm_compute; discriminate|exact Hd|].
    rewrite Hrun. vm_compute in Hnth. inversion Hnth. reflexivity.
  - destruct (proj1 (proj2 (proj2 (ComboEngine_selection (N := MiniNames.names) Mini.flat
                (mkTimeControl (PyInt 600) PyNone PyNone PyNone PyNone) false true
                (Some [Mini.step 5 6; Mini.step 3 2]) (Mini.start Mini.middle)))))
      as (m & _ & Hrun);
      [discriminate|vm_compute; discriminate|vm_compute; discriminate
      |vm_compute; discriminate|].
    rewrite Hrun. vm_compute in Hrun. inversion Hrun as [Hm]. reflexivity.
Defined.

(** X5. [ComboEngine.search] counts a time value only when it is an [int].
    With an [int] as fixed time, the clocks and increments are not read,
    and for a time of at most [10^9] in absolute value the move is drawn
    exactly when the time exceeds 600.  Without it, when neither the clock
    nor the increment of the side to move is an [int] (they are [None] or
    floats, of any size), both count as 0 and the move with the least UCI
    string is returned. *)
Theorem ComboEngine_reads_integers `{L : ChessLib} `{N : !ChessNames} (O : Oracle)
    (time_limit : TimeControl) (ponder draw : bool) (root_moves : option (list Move))
    (w : World) :
  let possible_moves :=
    match root_moves with Some l => l | None => legal_moves (board w) end in
  (forall t, tc_time time_limit = PyInt t ->
     ComboEngine_search O time_limit ponder draw root_moves w
     = ComboEngine_search O (mkTimeControl (PyInt t) PyNone PyNone PyNone PyNone)
                          ponder draw root_moves w
     /\ (possible_moves <> [] -> (600 < t)%Z -> in_clock_range t -> draws_in_range O ->
         exists m,
           nth_error possible_moves (randbelow O (draws w) (List.length possible_moves))
             = Some m
           /\ fst (ComboEngine_search O time_limit ponder draw root_moves w)
              = Returned (mkComboResult (mkPlayResult m None) draw root_moves))
     /\ (possible_moves <> [] -> (t <= 600)%Z -> in_clock_range t ->
         exists m, first_least uci possible_moves m
           /\ fst (ComboEngine_search O time_limit ponder draw root_moves w)
              = Returned (mkComboResult (mkPlayResult m None) draw
                            (match root_moves with
                             | Some _ => Some (sort_by uci possible_moves)
                             | None => None
                             end))))
  /\ (is_int (tc_time time_limit) = false ->
      is_int (if turn_white (board w) then tc_white_clock time_limit
              else tc_black_clock time_limit) = false ->
      is_int (if turn_white (board w) then tc_white_inc time_limit
              else tc_black_inc time_limit) = false ->
      possible_moves <> [] ->
      exists m, first_least uci possible_moves m
        /\ ComboEngine_search O time_limit ponder draw root_moves w
           = (Returned (mkComboResult (mkPlayResult m None) draw
                          (match root_moves with
                           | Some _ => Some (sort_by uci possible_moves)
                           | None => None
                           end)), w)).
Proof.
  intros possible_moves. split.
  - intros t Ht. split; [|split].
    + unfold ComboEngine_search, bind, get_board, my_time_inc. rewrite Ht. reflexivity.
    + intros Hne Hgt _ Hd.
      destruct (random_choice_total O _ w Hd Hne) as (m & Hnth & Hrun).
      exists m. split; [exact Hnth|].
      unfold ComboEngine_search, bind, get_board, my_time_inc. rewrite Ht.
      assert (E : Qgtb (inject_Z t / 60 + inject_Z 0) 10 = true)
        by (apply combo_threshold; lia).
      rewrite E. fold possible_moves. rewrite Hrun. reflexivity.
    + intros Hne Hle _.
      destruct (sort_by_first_returns uci _ Hne) as [m Hm].
      exists m. split; [now apply sort_by_first_least_stable|].
      unfold ComboEngine_search, bind, get_board, lift, my_time_inc. rewrite Ht.
      assert (E : Qgtb (inject_Z t / 60 + inject_Z 0) 10 = false)
        by (apply combo_threshold_not; lia).
      rewrite E. fold possible_moves. rewrite Hm. reflexivity.
  - intros Ht Hc Hi Hne.
    destruct (sort_by_first_returns uci _ Hne) as [m Hm].
    exists m. split; [now apply sort_by_first_least_stable|].
    unfold ComboEngine_search, bind, get_board, lift, my_time_inc.
    assert (E : forall v, is_int v = false -> int_or_zero v = 0%Z)
      by (intros [|z|q]; simpl; congruence).
    destruct (tc_time time_limit) as [|z|q]; try discriminate;
      destruct (turn_white (board w)); rewrite (E _ Hc), (E _ Hi);
      fold possible_moves; cbn [Qgtb]; rewrite Hm; reflexivity.
Qed.

(** Fifteen minutes on both clocks, given as floats: the move is not drawn
    but is the least one. *)
Lemma ComboEngine_reads_integers_witness :
  is_int (PyFloat 900) = false
  /\ legal_moves Mini.middle <> []
  /\ in_clock_range 30
  /\ fst (ComboEngine_search (N := MiniNames.names) Mini.flat
            (mkTimeControl PyNone (PyFloat 900) (PyFloat 900) (PyFloat 15) (PyFloat 15))
            false false None (Mini.start Mini.middle))
     = Returned (mkComboResult (mkPlayResult (Mini.step 3 2) None) false None)
  /\ fst (ComboEngine_search (N := MiniNames.names) Mini.flat
            (mkTimeControl (PyInt 30) (PyInt 9000) (PyInt 9000) (PyInt 50) (PyInt 50))
            false false None (Mini.start Mini.middle))
     = Returned (mkComboResult (mkPlayResult (Mini.step 3 2) None) false None).
Proof.
  assert (H1 : legal_moves (board (Mini.start Mini.middle)) <> [])
    by (vm_compute; discriminate).
  split; [reflexivity|]. split; [exact H1|]. split; [vm_compute; discriminate|]. split.
  - destruct (proj2 (ComboEngine_reads_integers (N := MiniNames.names) Mini.flat
                (mkTimeControl PyNone (PyFloat 900) (PyFloat 900) (PyFloat 15) (PyFloat 15))
                false false None (Mini.start Mini.middle)) eq_refl eq_refl eq_refl H1)
      as (m & _ & Hrun).
    rewrite Hrun. vm_compute in Hrun. inversion Hrun as [Hm]. reflexivity.
  - destruct (proj2 (proj2 (proj1 (ComboEngine_reads_integers (N := MiniNames.names)
                Mini.flat
                (mkTimeControl (PyInt 30) (PyInt 9000) (PyInt 9000) (PyInt 50) (PyInt 50))
                false false None (Mini.start Mini.middle)) 30%Z eq_refl)) H1)
      as (m & _ & Hrun); [lia|vm_compute; discriminate|].
    rewrite Hrun. vm_compute in Hrun. inversion Hrun as [Hm]. reflexivity.
Defined.



(** ** More facts about [WorstFish.search], for any engine *)

Section Frames.
Context `{L : ChessLib} (O : Oracle).

Lemma WorstFish_search_shape (timeLeft : TimeLeft) args (w : World) :
  WorstFish_search O timeLeft args w =
  match searchTime_of timeLeft (legal_moves (board w)) with
  | Raised e => (Raised e, w)
  | Returned s =>
      match for_each (score_candidate O s) (legal_moves (board w)) (None, []) w with
      | (Raised e, w1) => (Raised e, w1)
      | (Returned st, w1) =>
          match random_choice O (chosen_bucket (partition_worst (snd st))) w1 with
          | (Returned m, w2) => (Returned (mkPlayResult m None), w2)
          | (Raised e, w2) => (Raised e, w2)
          end
      end
  end.
Proof.
  unfold WorstFish_search, bind, get_board, lift.
  destruct (searchTime_of timeLeft (legal_moves (board w))) as [s|e]; [|reflexivity].
  destruct (for_each _ _ _ w) as [[st|e] w1]; [|reflexivity].
  unfold chosen_bucket. destruct (partition_worst (snd st)) as [[caps checks] other].
  destruct (negb (List.length other =? 0)%nat); [reflexivity|].
  destruct (negb (List.length checks =? 0)%nat); reflexivity.
Qed.


(** What one turn of the loop changes: one entry in each of the two logs,
    and the board. *)
Lemma score_candidate_frame (s : Q) (m : Move) st (w : World) out w' :
  score_candidate O s m st w = (out, w') ->
  draws w' = draws w /\ sf_position w' = sf_position w /\ sf_asked w' = sf_asked w
  /\ move_type_txt w' = move_type_txt w
  /\ analysed w' = analysed w ++ [(push (board w) m, Limit_time (s - 0.01))]
  /\ evaluate_calls w' = evaluate_calls w ++ [s].
Proof.
  unfold score_candidate, evaluate, bind, get_board, board_push, board_pop, set_board,
    note_evaluate, stockfish_analyse, ret; simpl.
  destruct (analyse O _ _ _); intros H; inversion H; subst; simpl; auto 10.
Qed.

Lemma for_each_frame (s : Q) (ms : list Move) : forall st (w : World) out w',
  for_each (score_candidate O s) ms st w = (out, w') ->
  draws w' = draws w /\ sf_position w' = sf_position w /\ sf_asked w' = sf_asked w
  /\ move_type_txt w' = move_type_txt w
  /\ exists k, (k <= List.length ms)%nat
       /\ List.length (analysed w') = (List.length (analysed w) + k)%nat
       /\ evaluate_calls w' = evaluate_calls w ++ repeat s k
       /\ (forall st', out = Returned st' -> k = List.length ms).
Proof.
  induction ms as [|m ms IH]; intros st w out w' Hrun.
  - inversion Hrun; subst. repeat split; auto. exists 0%nat.
    simpl. rewrite app_nil_r. repeat split; auto.
  - cbn [for_each] in Hrun. unfold bind at 1 in Hrun.
    destruct (score_candidate O s m st w) as [[st1|e] w1] eqn:E1;
      destruct (score_candidate_frame _ _ _ _ _ _ E1) as (Hd & Hp & Ha & Hf & Han & Hev).
    + destruct (IH _ _ _ _ Hrun) as (Hd' & Hp' & Ha' & Hf' & k & Hk & Hlen & Hcalls & Hret).
      repeat split; try congruence. exists (S k). simpl. split; [lia|]. split.
      * rewrite Hlen, Han, length_app. simpl. lia.
      * split; [rewrite Hcalls, Hev, <- app_assoc; reflexivity|].
        intros st' Hst. now rewrite (Hret st' Hst).
    + inversion Hrun; subst. repeat split; auto. exists 1%nat. simpl. split; [lia|].
      split; [rewrite Han, length_app; simpl; lia|]. split; [exact Hev|discriminate].
Qed.

Lemma random_choice_frame {A : Type} (l : list A) (w : World) out w' :
  random_choice O l w = (out, w') ->
  board w' = board w /\ analysed w' = analysed w /\ evaluate_calls w' = evaluate_calls w
  /\ sf_position w' = sf_position w /\ sf_asked w' = sf_asked w
  /\ move_type_txt w' = move_type_txt w
  /\ (draws w' = draws w \/ draws w' = S (draws w))
  /\ (forall x, out = Returned x -> draws w' = S (draws w)).
Proof.
  unfold random_choice. destruct l as [|a l].
  - intros H. inversion H; subst. repeat split; auto. discriminate.
  - destruct (nth_error _ _); intros H; inversion H; subst; simpl; repeat split; auto.
Qed.

End Frames.

Section Failure.
Context `{L : ChessLib} (O : Oracle).
Variable evalf : nat -> Board -> Limit -> Score.



End Failure.

(** ** More properties of [WorstFish.search] and [TestFish.search] *)





Lemma WorstFish_search_frame `{L : ChessLib} (O : Oracle) (timeLeft : TimeLeft)
    (args : option (list Move)) (w : World) out w' :
  WorstFish_search O timeLeft args w = (out, w') ->
  sf_position w' = sf_position w /\ sf_asked w' = sf_asked w
  /\ move_type_txt w' = move_type_txt w
  /\ (draws w' = draws w \/ draws w' = S (draws w))
  /\ exists k, (k <= List.length (legal_moves (board w)))%nat
       /\ List.length (analysed w') = (List.length (analysed w) + k)%nat
       /\ List.length (evaluate_calls w') = (List.length (evaluate_calls w) + k)%nat
       /\ (forall r, out = Returned r ->
             k = List.length (legal_moves (board w)) /\ draws w' = S (draws w)).
Proof.
  rewrite WorstFish_search_shape.
  destruct (searchTime_of timeLeft (legal_moves (board w))) as [s|e].
  - destruct (for_each _ _ _ w) as [[st|e] w1] eqn:Ef;
      destruct (for_each_frame O s _ _ _ _ _ Ef)
        as (Hd & Hp & Ha & Hf & k & Hk & Hlen & Hcalls & Hret).
    + destruct (random_choice O _ w1) as [o w2] eqn:Ec.
      destruct (random_choice_frame O _ _ _ _ Ec)
        as (_ & Han & Hev & Hp2 & Ha2 & Hf2 & Hd2 & Hd3).
      assert (Hw : forall out0,
                (match o with
                 | Returned m => (Returned (mkPlayResult m None), w2)
                 | Raised e => (Raised e, w2)
                 end) = (out0, w') -> w2 = w'
                /\ (forall r, out0 = Returned r -> exists m, o = Returned m)).
      { intros out0 H. destruct o; inversion H; subst; split; eauto. discriminate. }
      intros H. destruct (Hw out H) as [<- Hout].
      split; [congruence|]. split; [congruence|]. split; [congruence|].
      split; [destruct Hd2; [left|right]; congruence|].
      exists k. split; [exact Hk|]. split; [congruence|].
      split; [rewrite Hev, Hcalls, length_app, repeat_length; reflexivity|].
      intros r Hr. destruct (Hout r Hr) as [m Hm]. split; [exact (Hret st eq_refl)|].
      rewrite (Hd3 m Hm). congruence.
    + intros H; inversion H; subst.
      split; [exact Hp|]. split; [exact Ha|]. split; [exact Hf|].
      split; [left; exact Hd|].
      exists k. split; [exact Hk|]. split; [exact Hlen|].
      split; [rewrite Hcalls, length_app, repeat_length; reflexivity|discriminate].
  - intros H; inversion H; subst.
    split; [reflexivity|]. split; [reflexivity|]. split; [reflexivity|].
    split; [now left|]. exists 0%nat.
    split; [lia|]. split; [lia|]. split; [lia|]. discriminate.
Qed.

Lemma TestFish_branch_frame `{L : ChessLib} (O : Oracle)
    (timeLeft : TimeLeft) (args : option (list Move)) (w : World)
    (strategy : MoveType) out w' :
  TestFish_branch O strategy timeLeft args w = (out, w') ->
  move_type_txt w' = move_type_txt w
  /\ match strategy with
     | Best =>
         board w' = board w /\ draws w' = draws w /\ analysed w' = analysed w
         /\ evaluate_calls w' = evaluate_calls w
         /\ sf_position w' = Some (fen (board w)) /\ sf_asked w' = S (sf_asked w)
     | Random =>
         board w' = board w /\ analysed w' = analysed w
         /\ evaluate_calls w' = evaluate_calls w
         /\ sf_position w' = sf_position w /\ sf_asked w' = sf_asked w
     | Capture =>
         board w' = board w /\ analysed w' = analysed w
         /\ evaluate_calls w' = evaluate_calls w
         /\ ((draws w' = draws w /\ sf_asked w' = S (sf_asked w)
              /\ sf_position w' = Some (fen (board w)))
             \/ (sf_asked w' = sf_asked w /\ sf_position w' = sf_position w))
     | Worst =>
         sf_position w' = sf_position w /\ sf_asked w' = sf_asked w
         /\ exists k, (k <= List.length (legal_moves (board w)))%nat
              /\ List.length (analysed w') = (List.length (analysed w) + k)%nat
              /\ List.length (evaluate_calls w') = (List.length (evaluate_calls w) + k)%nat
              /\ (forall r, out = Returned r ->
                    k = List.length (legal_moves (board w)) /\ draws w' = S (draws w))
     end.
Proof.
  destruct strategy; cbn [TestFish_branch].
  - unfold bind, get_board, set_fen_position, stockfish_get_best_move, raise, ret. simpl.
    destruct (get_best_move O (sf_asked w) (fen (board w)));
      intros H; inversion H; subst; simpl; auto 10.
  - unfold bind, get_board.
    destruct (random_choice O (legal_moves (board w)) w) as [[m|e] w1] eqn:Ec;
      destruct (random_choice_frame O _ _ _ _ Ec) as (Hb & Han & Hev & Hp & Ha & Hf & _);
      intros H; inversion H; subst; auto 10.
  - unfold bind.
    destruct (WorstFish_search O timeLeft args w) as [[r|e] w1] eqn:Ew;
      destruct (WorstFish_search_frame O _ _ _ _ _ Ew)
        as (Hp & Ha & Hf & _ & k & Hk & Hlen & Hcalls & Hret);
      intros H; inversion H; subst; (split; [exact Hf|]); (split; [exact Hp|]);
      (split; [exact Ha|]); exists k; repeat split; auto; try discriminate.
    + exact (proj1 (Hret r eq_refl)).
    + exact (proj2 (Hret r eq_refl)).
  - unfold bind, get_board.
    destruct (filter (is_capture (board w)) (legal_moves (board w))) as [|c cs].
    + unfold set_fen_position, stockfish_get_best_move, raise, ret. simpl.
      destruct (get_best_move O (sf_asked w) (fen (board w)));
        intros H; inversion H; subst; simpl;
        repeat (split; [reflexivity|]); left; auto.
    + destruct (random_choice O (c :: cs) w) as [[m|e] w1] eqn:Ec;
        destruct (random_choice_frame O _ _ _ _ Ec) as (Hb & Han & Hev & Hp & Ha & Hf & _);
        intros H; inversion H; subst;
        repeat (split; [assumption|]); right; auto.
Qed.



Lemma TestFish_search_runs_drawn `{L : ChessLib} (O : Oracle) (timeLeft : TimeLeft)
    (args : option (list Move)) (w : World) :
  draws_in_range O ->
  exists strategy,
    nth_error [Best; Best; Best; Random; Worst; Capture] (randbelow O (draws w) 6)
      = Some strategy
    /\ TestFish_search O timeLeft args w
       = TestFish_branch O strategy timeLeft args
           (mkWorld (board w) (S (draws w)) (evaluate_calls w) (analysed w)
                    (sf_position w) (sf_asked w) (Some (move_type_name strategy)))
    /\ (forall out w', TestFish_search O timeLeft args w = (out, w') ->
          move_type_txt w' = Some (move_type_name strategy)).
Proof.
  intros Hd.
  pose proof (Hd (draws w) 6%nat ltac:(lia)) as Hlt.
  assert (Hsearch : forall strategy,
    nth_error [Best; Best; Best; Random; Worst; Capture] (randbelow O (draws w) 6)
      = Some strategy ->
    TestFish_search O timeLeft args w
    = TestFish_branch O strategy timeLeft args
        (mkWorld (board w) (S (draws w)) (evaluate_calls w) (analysed w)
                 (sf_position w) (sf_asked w) (Some (move_type_name strategy)))).
  { intros strategy E. unfold TestFish_search, bind at 1, random_choice.
    cbn [List.length]. rewrite E. unfold bind at 1, create_file. reflexivity. }
  destruct (nth_error [Best; Best; Best; Random; Worst; Capture] (randbelow O (draws w) 6))
    as [strategy|] eqn:E; [|apply nth_error_None in E; simpl in E; lia].
  exists strategy. split; [reflexivity|]. split; [exact (Hsearch strategy eq_refl)|].
  intros out w' Hrun. rewrite (Hsearch strategy eq_refl) in Hrun.
  destruct (TestFish_branch_frame O _ _ _ _ _ _ Hrun) as [Hf _].
  exact Hf.
Qed.

(** X10. [TestFish.search] first draws one of six names, of which three are
    [Best], writes the name to move_type.txt, and then runs that strategy:
    the draws 0, 1 and 2 run [Best], 3 runs [Random], 4 runs [Worst] and 5
    runs [Capture].  Whatever the strategy does afterwards, returning a move
    or raising, the file holds the name of the strategy that ran. *)
Theorem dispatch_records_strategy `{L : ChessLib} (O : Oracle) (timeLeft : TimeLeft)
    (args : option (list Move)) (w : World) :
  draws_in_range O ->
  exists strategy,
    nth_error [Best; Best; Best; Random; Worst; Capture] (randbelow O (draws w) 6)
      = Some strategy
    /\ TestFish_search O timeLeft args w
       = TestFish_branch O strategy timeLeft args
           (mkWorld (board w) (S (draws w)) (evaluate_calls w) (analysed w)
                    (sf_position w) (sf_asked w) (Some (move_type_name strategy)))
    /\ (forall out w', TestFish_search O timeLeft args w = (out, w') ->
          move_type_txt w' = Some (move_type_name strategy))
    /\ (strategy = Best <-> (randbelow O (draws w) 6 < 3)%nat).
Proof.
  intros Hd.
  destruct (TestFish_search_runs_drawn O timeLeft args w Hd) as (strategy & E & Hrun & Hfile).
  exists strategy. split; [exact E|]. split; [exact Hrun|]. split; [exact Hfile|].
  destruct (randbelow O (draws w) 6) as [|[|[|[|[|[|n]]]]]]; simpl in E;
    try (destruct n; discriminate E);
    inversion E; subst; split; intros H; try discriminate; try lia; try reflexivity.
Qed.

Lemma dispatch_records_strategy_witness :
  draws_in_range Mini.flat
  /\ forall out w',
       TestFish_search Mini.flat (Clock 60000) None (Mini.start Mini.middle) = (out, w') ->
       move_type_txt w' = Some "Best"%string.
Proof.
  assert (Hd : draws_in_range Mini.flat) by (intros k n H; exact H).
  split; [exact Hd|].
  destruct (dispatch_records_strategy Mini.flat (Clock 60000) None (Mini.start Mini.middle) Hd)
    as (strategy & Hnth & _ & Hfile & _).
  vm_compute in Hnth. inversion Hnth; subst strategy. exact Hfile.
Defined.

(** ** Facts about [lib/conversation.py] *)

Module ChatFacts.
Import Chat.

Lemma lower_char_idempotent (c : ascii) : lower_char (lower_char c) = lower_char c.
Proof.
  destruct c as [[] [] [] [] [] [] [] []]; reflexivity.
Qed.

Lemma lower_idempotent (s : string) : lower (lower s) = lower s.
Proof.
  induction s as [|c s IH]; simpl; [reflexivity|].
  now rewrite lower_char_idempotent, IH.
Qed.

Lemma known_without_tellmoves (cmd : string) :
  In cmd known_commands -> contains "tellmoves" (lower cmd) = false.
Proof.
  unfold known_commands. simpl.
  intros [<-|[<-|[<-|[<-|[<-|[<-|[<-|[<-|[]]]]]]]]]; reflexivity.
Qed.

Section Commands.
Variable E : Env.

Lemma command_cases (line : ChatLine) (cmd : string) (c : Conversation) :
  (In cmd known_commands
   /\ ((exists reply, command E line cmd c = send_reply E line reply c)
       \/ (cmd = "wait"%string /\ game_is_abortable E = true
           /\ command E line cmd c = send_reply E line "Waiting 60 seconds..." (ping c))
       \/ (cmd = "wait"%string /\ game_is_abortable E = false /\ command E line cmd c = c)))
  \/ (~ In cmd known_commands /\ command E line cmd c = toggled E cmd c).
Proof.
  unfold command. fold (toggled E cmd c).
  destruct (String.eqb_spec cmd "commands") as [->|N1].
  { left. split; [simpl; auto|]. left. eexists. reflexivity. }
  destruct (String.eqb_spec cmd "help") as [->|N2].
  { left. split; [simpl; auto|]. left. eexists. reflexivity. }
  destruct (String.eqb_spec cmd "wait") as [->|N3].
  { left. split; [simpl; auto 10|]. unfold toggled. simpl.
    destruct (game_is_abortable E); [right; left; auto|right; right; auto]. }
  destruct (String.eqb_spec cmd "name") as [->|N4].
  { left. split; [simpl; auto 10|]. left. eexists. reflexivity. }
  destruct (String.eqb_spec cmd "howto") as [->|N5].
  { left. split; [simpl; auto 10|]. left. eexists. reflexivity. }
  destruct (String.eqb_spec cmd "eval") as [->|N6].
  { left. split; [simpl; auto 10|]. left. unfold toggled. simpl.
    destruct (_ || _)%bool; eexists; reflexivity. }
  destruct (String.eqb_spec cmd "queue") as [->|N7].
  { left. split; [simpl; auto 10|]. left. unfold toggled. simpl.
    destruct (challengers E); eexists; reflexivity. }
  destruct (String.eqb_spec cmd "test") as [->|N8].
  { left. split; [simpl; auto 10|]. left. eexists. reflexivity. }
  right. split; [|reflexivity].
  unfold known_commands. simpl. intuition congruence.
Qed.

Lemma toggle_sends_one (c : Conversation) :
  exists note,
    chatted (toggle_file_observer E c) = chatted c ++ [(game_id E, "player"%string, note)]
    /\ pinged (toggle_file_observer E c) = pinged c
    /\ observer_enabled (toggle_file_observer E c) = negb (observer_enabled c)
    /\ (note = if observer_enabled c then "Stopped Move Teller"%string
               else "Started Move Teller"%string).
Proof.
  unfold toggle_file_observer, stop_file_observer, start_file_observer.
  destruct c as [[o|] [] ch pg]; eexists; simpl; repeat split; reflexivity.
Qed.

Lemma toggle_consistent (c : Conversation) : consistent (toggle_file_observer E c).
Proof.
  unfold consistent, toggle_file_observer, stop_file_observer, start_file_observer.
  destruct c as [[o|] [] ch pg]; simpl; split; intros H;
    try reflexivity; try discriminate; try (exfalso; now apply H).
Qed.

Lemma command_line_ext (l1 l2 : ChatLine) (cmd : string) (c : Conversation) :
  room l1 = room l2 -> username l1 = username l2 ->
  command E l1 cmd c = command E l2 cmd c.
Proof.
  intros Hr Hu. unfold command, send_reply. rewrite Hr, Hu. reflexivity.
Qed.

Lemma toggled_cases (cmd : string) (c : Conversation) :
  (contains "tellmoves" (lower cmd) = true /\ toggled E cmd c = toggle_file_observer E c)
  \/ (contains "tellmoves" (lower cmd) = false /\ toggled E cmd c = c).
Proof. unfold toggled. destruct (contains _ _); auto. Qed.

(** X11. [react] handles a line only when its text starts with the command
    prefix: any other text changes nothing, and an empty text raises
    [IndexError] (the code reads the first character without a test). *)
Theorem react_only_commands (line : ChatLine) (c : Conversation) :
  (text line = EmptyString -> react E line c = (Raised IndexError, c))
  /\ (forall first rest, text line = String first rest -> first <> "!"%char ->
        react E line c = (Returned tt, c))
  /\ (forall out c', react E line c = (out, c') ->
        (out = Raised IndexError <-> text line = EmptyString)
        /\ (c' <> c -> exists rest, text line = String "!" rest)).
Proof.
  unfold react. split; [|split].
  - intros ->. reflexivity.
  - intros first rest -> Hne. destruct (Ascii.eqb_spec first "!"); [contradiction|reflexivity].
  - intros out c'. destruct (text line) as [|first rest].
    + intros H; inversion H; subst. split; [tauto|]. intros Hc. now elim Hc.
    + destruct (Ascii.eqb_spec first "!") as [->|Hne]; intros H; inversion H; subst.
      * split; [split; discriminate|]. eauto.
      * split; [split; discriminate|]. intros Hc. now elim Hc.
Qed.

(** X12. Commands are matched without regard to case: two lines from the
    same user in the same room whose commands are equal once lowered do the
    same. *)
Theorem react_ignores_case (l1 l2 : ChatLine) (s1 s2 : string) (c : Conversation) :
  room l1 = room l2 -> username l1 = username l2 ->
  text l1 = String "!" s1 -> text l2 = String "!" s2 -> lower s1 = lower s2 ->
  react E l1 c = react E l2 c.
Proof.
  intros Hr Hu H1 H2 Hl. unfold react. rewrite H1, H2. simpl. rewrite Hl.
  now rewrite (command_line_ext l1 l2 _ _ Hr Hu).
Qed.

(** X13. One line gets at most one message in return.  The message is sent
    in the chat of this game, in the room of the line or, for the notice of
    the move teller, in the room of the players. *)
Theorem react_sends_at_most_one (line : ChatLine) (c : Conversation) out c' :
  react E line c = (out, c') ->
  exists sent,
    chatted c' = chatted c ++ sent
    /\ (List.length sent <= 1)%nat
    /\ forall id r t, In (id, r, t) sent ->
         id = game_id E /\ (r = room line \/ r = "player"%string).
Proof.
  unfold react. destruct (text line) as [|first rest].
  { intros H; inversion H; subst. exists []. rewrite app_nil_r.
    split; [reflexivity|]. split; [simpl; lia|]. intros ? ? ? []. }
  destruct (Ascii.eqb first "!"); intros H; inversion H; subst; clear H.
  2:{ exists []. rewrite app_nil_r.
    split; [reflexivity|]. split; [simpl; lia|]. intros ? ? ? []. }
  destruct (command_cases line (lower rest) c)
    as [[Hk [[reply ->]|[(_ & _ & ->)|(_ & _ & ->)]]]|[Hn ->]].
  - exists [(game_id E, room line, reply)]. simpl. split; [reflexivity|]. split; [lia|].
    intros id r t [Hin|[]]. inversion Hin; subst. auto.
  - eexists [(game_id E, room line, _)]. simpl. split; [reflexivity|]. split; [lia|].
    intros id r t [Hin|[]]. inversion Hin; subst. auto.
  - exists []. rewrite app_nil_r.
    split; [reflexivity|]. split; [simpl; lia|]. intros ? ? ? [].
  - destruct (toggled_cases (lower rest) c) as [[_ ->]|[_ ->]].
    + destruct (toggle_sends_one c) as (note & Hc & _).
      exists [(game_id E, "player"%string, note)]. split; [exact Hc|]. split; [simpl; lia|].
      intros id r t [Hin|[]]. inversion Hin; subst. auto.
    + exists []. rewrite app_nil_r.
    split; [reflexivity|]. split; [simpl; lia|]. intros ? ? ? [].
Qed.

End Commands.

Lemma react_only_commands_witness :
  react MiniNames.env (mkChatLine "player" "ann" "") MiniNames.fresh
    = (Raised IndexError, MiniNames.fresh)
  /\ react MiniNames.env (mkChatLine "player" "ann" "help") MiniNames.fresh
     = (Returned tt, MiniNames.fresh).
Proof.
  split.
  - exact (proj1 (react_only_commands MiniNames.env (mkChatLine "player" "ann" "") MiniNames.fresh) eq_refl).
  - apply (proj1 (proj2 (react_only_commands MiniNames.env (mkChatLine "player" "ann" "help")
                           MiniNames.fresh)) "h"%char "elp"%string eq_refl).
    discriminate.
Defined.

Lemma react_ignores_case_witness :
  react MiniNames.env (mkChatLine "player" "ann" "!QUEUE") MiniNames.fresh
  = react MiniNames.env (mkChatLine "player" "ann" "!queue") MiniNames.fresh
  /\ chatted (snd (react MiniNames.env (mkChatLine "player" "ann" "!QUEUE") MiniNames.fresh))
     = [("game1", "player", "Challenge queue: @bob, @ann")]%string.
Proof.
  split; [|reflexivity].
  apply (react_ignores_case MiniNames.env (mkChatLine "player" "ann" "!QUEUE")
           (mkChatLine "player" "ann" "!queue") "QUEUE" "queue"); reflexivity.
Defined.

Lemma react_sends_at_most_one_witness :
  exists out c',
    react MiniNames.env (mkChatLine "spectator" "ann" "!tellmoves") MiniNames.fresh = (out, c')
    /\ chatted c' = [("game1", "player", "Started Move Teller")]%string.
Proof.
  destruct (react MiniNames.env (mkChatLine "spectator" "ann" "!tellmoves") MiniNames.fresh)
    as [out c'] eqn:Hrun.
  exists out, c'. split; [reflexivity|].
  destruct (react_sends_at_most_one MiniNames.env _ _ _ _ Hrun) as (sent & Hc & _ & _).
  vm_compute in Hrun. inversion Hrun; subst. reflexivity.
Defined.

(** X14. The statistics of the engine do not reach the opponent: for a line
    that comes neither from the account of the bot nor from the room of the
    spectators, what [react] does is the same whatever the statistics
    are. *)
Theorem stats_hidden_from_opponent (E : Env) (stats : list string) (line : ChatLine)
    (c : Conversation) :
  username line <> game_username E -> room line <> "spectator"%string ->
  react (with_stats E stats) line c = react E line c.
Proof.
  intros Hu Hr. apply String.eqb_neq in Hu, Hr.
  unfold react. destruct (text line) as [|first rest]; [reflexivity|].
  destruct (Ascii.eqb first "!"); [|reflexivity]. f_equal.
  unfold command, with_stats, toggle_file_observer, send_message, send_reply. simpl.
  rewrite Hu, Hr. simpl. rewrite andb_false_r. reflexivity.
Qed.

(** The opponent asks for the evaluation in the room of the players and is
    refused; a spectator gets the statistics. *)
Lemma stats_hidden_from_opponent_witness :
  "ann"%string <> game_username MiniNames.env
  /\ "player"%string <> "spectator"%string
  /\ chatted (snd (react (with_stats MiniNames.env ["mate in 3"%string])
                         (mkChatLine "player" "ann" "!eval") MiniNames.fresh))
     = [("game1", "player", "I don't tell that to my opponent, sorry.")]%string
  /\ chatted (snd (react MiniNames.env (mkChatLine "spectator" "ann" "!eval") MiniNames.fresh))
     = [("game1", "spectator", "+0.3, depth 12")]%string.
Proof.
  assert (H1 : "ann"%string <> game_username MiniNames.env) by discriminate.
  assert (H2 : "player"%string <> "spectator"%string) by discriminate.
  split; [exact H1|]. split; [exact H2|]. split; [|reflexivity].
  rewrite (stats_hidden_from_opponent MiniNames.env ["mate in 3"%string]
             (mkChatLine "player" "ann" "!eval") MiniNames.fresh H1 H2).
  reflexivity.
Defined.

Lemma send_reply_keeps (E : Env) (line : ChatLine) (reply : string) (c : Conversation) :
  observer (send_reply E line reply c) = observer c
  /\ observer_enabled (send_reply E line reply c) = observer_enabled c
  /\ pinged (send_reply E line reply c) = pinged c.
Proof. repeat split. Qed.

Lemma react_command (E : Env) (line : ChatLine) (c : Conversation) out c' :
  react E line c = (out, c') ->
  c' = c \/ exists rest, text line = String "!" rest /\ c' = command E line (lower rest) c.
Proof.
  unfold react. destruct (text line) as [|first rest]; [intros H; inversion H; auto|].
  destruct (Ascii.eqb_spec first "!") as [->|Hne]; intros H; inversion H; subst; eauto.
Qed.

(** X15. The command wait, in any case, on a game that can still be
    aborted makes [react] ping the game once, for 60, 120 and 120 seconds,
    and answer "Waiting 60 seconds..." in the room of the line, and nothing
    else.  Every other line, and the command wait on a game that can no
    longer be aborted, leaves the pings as they are. *)
Theorem ping_only_on_wait (E : Env) (line : ChatLine) (c : Conversation) out c' :
  react E line c = (out, c') ->
  (forall rest,
     text line = String "!" rest -> lower rest = "wait"%string ->
     game_is_abortable E = true ->
     out = Returned tt
     /\ pinged c' = pinged c ++ [(60, 120, 120)%Z]
     /\ chatted c' = chatted c ++ [(game_id E, room line, "Waiting 60 seconds..."%string)]
     /\ observer c' = observer c
     /\ observer_enabled c' = observer_enabled c)
  /\ (~ (exists rest, text line = String "!" rest /\ lower rest = "wait"%string
                      /\ game_is_abortable E = true) ->
      pinged c' = pinged c).
Proof.
  intros Hrun. split.
  - intros rest Ht Hl Ha. unfold react in Hrun. rewrite Ht in Hrun.
    change (Ascii.eqb "!" "!") with true in Hrun. cbv iota in Hrun.
    rewrite Hl in Hrun. unfold command in Hrun. rewrite Ha in Hrun.
    vm_compute in Hrun. inversion Hrun; subst. repeat split.
  - intros Hno. destruct (react_command E line c out c' Hrun) as [->|(rest & Ht & ->)];
      [reflexivity|].
    destruct (command_cases E line (lower rest) c)
      as [[Hk [[reply ->]|[(Hw & Ha & ->)|(_ & _ & ->)]]]|[Hn ->]].
    + reflexivity.
    + exfalso. apply Hno. exists rest. auto.
    + reflexivity.
    + destruct (toggled_cases E (lower rest) c) as [[_ ->]|[_ ->]]; [|reflexivity].
      destruct (toggle_sends_one E c) as (note & _ & Hp & _). exact Hp.
Qed.

(** The command in capitals pings and answers; the command name does not
    ping. *)
Lemma ping_only_on_wait_witness :
  (exists out c',
     react MiniNames.env (mkChatLine "player" "ann" "!Wait") MiniNames.fresh = (out, c')
     /\ pinged c' = [(60, 120, 120)%Z]
     /\ chatted c' = [("game1", "player", "Waiting 60 seconds...")]%string)
  /\ (exists out c',
        react MiniNames.env (mkChatLine "player" "ann" "!name") MiniNames.fresh = (out, c')
        /\ pinged c' = []).
Proof.
  split.
  - destruct (react MiniNames.env (mkChatLine "player" "ann" "!Wait") MiniNames.fresh)
      as [out c'] eqn:Hrun.
    exists out, c'. split; [reflexivity|].
    destruct (proj1 (ping_only_on_wait _ _ _ _ _ Hrun) "Wait"%string eq_refl eq_refl eq_refl)
      as (_ & Hp & Hc & _).
    split; [exact Hp|exact Hc].
  - destruct (react MiniNames.env (mkChatLine "player" "ann" "!name") MiniNames.fresh)
      as [out c'] eqn:Hrun.
    exists out, c'. split; [reflexivity|].
    apply (proj2 (ping_only_on_wait _ _ _ _ _ Hrun)).
    intros (rest & Ht & Hl & _). simpl in Ht. inversion Ht; subst rest. discriminate.
Defined.

(** X16. A command that contains the word tellmoves, in any case and
    anywhere in it, switches the move teller: [observer_enabled] is negated,
    an observer exists afterwards exactly when it is enabled, and the notice
    Started or Stopped goes to the room of the players.  Any other line
    leaves the observer and the flag as they are. *)
Theorem move_teller_switch (E : Env) (line : ChatLine) (c : Conversation) out c' :
  react E line c = (out, c') ->
  ((exists rest, text line = String "!" rest /\ contains "tellmoves" (lower rest) = true) ->
   observer_enabled c' = negb (observer_enabled c)
   /\ consistent c'
   /\ chatted c' = chatted c
        ++ [(game_id E, "player"%string,
             if observer_enabled c then "Stopped Move Teller"%string
             else "Started Move Teller"%string)])
  /\ (~ (exists rest, text line = String "!" rest
                      /\ contains "tellmoves" (lower rest) = true) ->
      observer c' = observer c /\ observer_enabled c' = observer_enabled c).
Proof.
  intros Hrun.
  assert (Hknown : forall rest, In (lower rest) known_commands ->
                                contains "tellmoves" (lower rest) = false).
  { intros rest Hk. rewrite <- (lower_idempotent rest). now apply known_without_tellmoves. }
  assert (Htog : forall rest,
            (contains "tellmoves" (lower rest) = true
             /\ toggled E (lower rest) c = toggle_file_observer E c)
            \/ (contains "tellmoves" (lower rest) = false /\ toggled E (lower rest) c = c)).
  { intros rest. unfold toggled. rewrite lower_idempotent.
    destruct (contains "tellmoves" (lower rest)); auto. }
  assert (Hcmd : forall rest, text line = String "!" rest ->
                              c' = command E line (lower rest) c).
  { intros rest Ht. revert Hrun. unfold react. rewrite Ht. simpl.
    intros H. now inversion H. }
  split.
  - intros (rest & Ht & Hc). rewrite (Hcmd rest Ht).
    destruct (command_cases E line (lower rest) c) as [[Hk _]|[Hn ->]].
    + rewrite (Hknown rest Hk) in Hc. discriminate.
    + destruct (Htog rest) as [[_ ->]|[Hc' _]]; [|congruence].
      destruct (toggle_sends_one E c) as (note & Hch & _ & Hen & ->).
      split; [exact Hen|]. split; [apply toggle_consistent|exact Hch].
  - intros Hno.
    destruct (react_command E line c out c' Hrun) as [->|(rest & Ht & ->)]; [auto|].
    destruct (command_cases E line (lower rest) c) as [[Hk Hcases]|[Hn ->]].
    + destruct Hcases as [[reply ->]|[(_ & _ & ->)|(_ & _ & ->)]]; split; reflexivity.
    + destruct (Htog rest) as [[Hc _]|[_ ->]]; [|auto].
      exfalso. apply Hno. eauto.
Qed.

(** The word is found inside a longer command, and the second command
    stops what the first started. *)
Lemma move_teller_switch_witness :
  exists out1 c1 out2 c2,
    react MiniNames.env (mkChatLine "player" "ann" "!pleaseTellMovesNow") MiniNames.fresh
      = (out1, c1)
    /\ react MiniNames.env (mkChatLine "player" "bob" "!tellmoves") c1 = (out2, c2)
    /\ observer_enabled c1 = true /\ observer c1 <> None
    /\ observer_enabled c2 = false /\ observer c2 = None
    /\ chatted c2 = [("game1", "player", "Started Move Teller");
                     ("game1", "player", "Stopped Move Teller")]%string.
Proof.
  destruct (react MiniNames.env (mkChatLine "player" "ann" "!pleaseTellMovesNow")
              MiniNames.fresh) as [out1 c1] eqn:H1.
  destruct (react MiniNames.env (mkChatLine "player" "bob" "!tellmoves") c1)
    as [out2 c2] eqn:H2.
  exists out1, c1, out2, c2. split; [reflexivity|]. split; [exact H2|].
  destruct (proj1 (move_teller_switch _ _ _ _ _ H1)) as (Hen1 & Hcons1 & Hch1);
    [exists "pleaseTellMovesNow"%string; split; reflexivity|].
  destruct (proj1 (move_teller_switch _ _ _ _ _ H2)) as (Hen2 & Hcons2 & Hch2);
    [exists "tellmoves"%string; split; reflexivity|].
  simpl in Hen1. rewrite Hen1 in Hen2, Hch2. simpl in Hen2, Hch2.
  split; [exact Hen1|]. split; [apply Hcons1; exact Hen1|]. split; [exact Hen2|].
  split.
  - destruct (observer c2) eqn:Eo; [|reflexivity].
    assert (Hc : observer_enabled c2 = true) by (apply Hcons2; congruence). congruence.
  - rewrite Hch2, Hch1. reflexivity.
Defined.

(** X17. A command that is none of the eight words of [command] and does
    not contain the word tellmoves gets no answer and changes nothing; nor
    does the command wait on a game that cannot be aborted any more. *)
Theorem unknown_commands_are_silent (E : Env) (line : ChatLine) (rest : string)
    (c : Conversation) :
  text line = String "!" rest ->
  (~ In (lower rest) known_commands /\ contains "tellmoves" (lower rest) = false)
  \/ (lower rest = "wait"%string /\ game_is_abortable E = false) ->
  react E line c = (Returned tt, c).
Proof.
  intros Ht Hcase. unfold react. rewrite Ht. simpl. f_equal.
  destruct (command_cases E line (lower rest) c)
    as [[Hk [[reply Hcmd]|[(Hw & Ha & Hcmd)|(_ & _ & Hcmd)]]]|[Hn Hcmd]].
  - destruct Hcase as [[Hn _]|[Hw Ha]]; [contradiction|].
    exfalso. revert Hcmd. unfold command. rewrite Hw, Ha. simpl.
    intros Hcmd. apply (f_equal (fun x => List.length (chatted x))) in Hcmd.
    simpl in Hcmd. rewrite length_app in Hcmd. simpl in Hcmd. lia.
  - destruct Hcase as [[Hn _]|[_ Ha']]; [contradiction|congruence].
  - exact Hcmd.
  - rewrite Hcmd. destruct Hcase as [[_ Hc]|[Hw _]].
    + unfold toggled. rewrite lower_idempotent. now rewrite Hc.
    + exfalso. apply Hn. rewrite Hw. simpl. auto.
Qed.

Lemma unknown_commands_are_silent_witness :
  ~ In (lower "Resign") known_commands
  /\ contains "tellmoves" (lower "Resign") = false
  /\ react MiniNames.env (mkChatLine "player" "ann" "!Resign") MiniNames.fresh
     = (Returned tt, MiniNames.fresh).
Proof.
  assert (H1 : ~ In (lower "Resign") known_commands)
    by (vm_compute; intuition discriminate).
  assert (H2 : contains "tellmoves" (lower "Resign") = false) by reflexivity.
  split; [exact H1|]. split; [exact H2|].
  apply (unknown_commands_are_silent MiniNames.env _ "Resign"); [reflexivity|].
  left. split; assumption.
Defined.

(** X18. [ChatLine] needs the keys room, username and text: with the three
    present it holds their values, whatever else the dictionary holds and in
    whatever order; without one of them it fails with the [KeyError] of the
    first key that is missing, in this order.  The dictionary that
    [send_message] builds always has them. *)
Theorem ChatLine_needs_three_keys (message_info : list (string * string)) :
  (forall r u t,
     dict_get message_info "room" = inr r -> dict_get message_info "username" = inr u ->
     dict_get message_info "text" = inr t ->
     ChatLine_init message_info = inr (mkChatLine r u t))
  /\ (forall key, ChatLine_init message_info = inl key ->
        dict_get message_info key = inl key
        /\ (key = "room"%string
            \/ (key = "username"%string /\ exists r, dict_get message_info "room" = inr r)
            \/ (key = "text"%string /\ (exists r, dict_get message_info "room" = inr r)
                /\ exists u, dict_get message_info "username" = inr u)))
  /\ (forall room,
        ChatLine_init [("room", room); ("username", ""); ("text", "")]%string
        = inr (mkChatLine room "" "")).
Proof.
  assert (Hkey : forall d k k', dict_get d k = inl k' -> k' = k).
  { induction d as [|[k0 v] d IH]; simpl; intros k k' H; [congruence|].
    destruct (String.eqb k0 k); [discriminate|eauto]. }
  split; [|split].
  - intros r u t Hr Hu Ht. unfold ChatLine_init. now rewrite Hr, Hu, Ht.
  - intros key. unfold ChatLine_init.
    destruct (dict_get message_info "room") as [k1|r] eqn:Er.
    { intros H; inversion H; subst. pose proof (Hkey _ _ _ Er) as Hk. subst key.
      split; [exact Er|]. now left. }
    destruct (dict_get message_info "username") as [k2|u] eqn:Eu.
    { intros H; inversion H; subst. pose proof (Hkey _ _ _ Eu) as Hk. subst key.
      split; [exact Eu|]. right; left. eauto. }
    destruct (dict_get message_info "text") as [k3|t] eqn:Et; [|discriminate].
    intros H; inversion H; subst. pose proof (Hkey _ _ _ Et) as Hk. subst key.
    split; [exact Et|]. right; right. eauto.
  - intros room. reflexivity.
Qed.

Lemma ChatLine_needs_three_keys_witness :
  ChatLine_init [("text", "hello"); ("id", "7"); ("username", "ann"); ("room", "player")]%string
    = inr (mkChatLine "player" "ann" "hello")
  /\ ChatLine_init [("text", "hello"); ("room", "player")]%string = inl "username"%string.
Proof.
  split.
  - apply (proj1 (ChatLine_needs_three_keys _)); reflexivity.
  - reflexivity.
Defined.

End ChatFacts.


